(** * Agent orchestration of the hypothesis generator (app.py)

    A shallow embedding of the control logic of [app.py]: the retrying
    responder, the tool execution stage, the draft / execute_tools /
    revise graph with its termination test, and the outer loop of
    [generate_hypotheses].  The language model, the retrieval chain, the
    vector store, the guardrails chain and the user interface are external
    collaborators: they are an interface ([Collaborators]) over a state of
    their own, and every call on them is recorded in a trace.

    The program is written in a state and exception monad over a world that
    holds the state of the collaborators, the heap of list objects, the
    trace and the table of the session ([st.session_state.hypothesisdf_all]).
    Python's exceptions are results [Raise e]; the only handler of the
    program is the [except ValidationError] of [respond]. *)

From Stdlib Require Import ZArith Lia DecimalString.
From stdpp Require Import base list strings.

Set Warnings "-register-all".

Local Open Scope string_scope.
Local Open Scope Z_scope.

(** ** Data model *)

(** Values decoded from the model's structured output (the [args] of a tool
    call are a Python dict built from JSON).  A [JObj] is a dict: keys are
    unique and looked up by name. *)
Inductive Json : Type :=
| JNull
| JBool (b : bool)
| JNum (n : Z)
| JStr (s : string)
| JList (xs : list Json)
| JObj (fields : list (string * Json)).

(** A tool invocation: [{"name": ..., "args": ..., "id": ...}]. *)
Record ToolCall : Type := mkToolCall {
  tc_name : string;
  tc_args : Json;
  tc_id : string
}.

(** What a chat model returns: an AI message with its tool invocations. *)
Record AIMsg : Type := mkAIMsg {
  ai_content : string;
  tool_calls : list ToolCall
}.

Inductive Message : Type :=
| HumanMessage (content : string)
| AIMessage (m : AIMsg)
| ToolMessage (content : string) (tool_call_id : string)
| SystemMessage (content : string).

(** The [type] attribute of a message. *)
Definition msg_type (m : Message) : string :=
  match m with
  | HumanMessage _ => "human"
  | AIMessage _ => "ai"
  | ToolMessage _ _ => "tool"
  | SystemMessage _ => "system"
  end.

(** A retrieved passage. *)
Record Document : Type := mkDocument { page_content : string }.

(** Exceptions.  [ValidationError] carries [repr(e)]; [Fault] is any failure
    signalled by a collaborator (endpoint, retriever, policy checker). *)
Inductive exn : Type :=
| ValidationError (repr : string)
| IndexError
| KeyError (key : string)
| TypeError
| ValueError
| AttributeError
| GraphRecursionError
| Fault (what : string).

Inductive Res (A : Type) : Type :=
| Ok (a : A)
| Raise (e : exn).
Arguments Ok {A} a.
Arguments Raise {A} e.

Definition is_ok {A} (r : Res A) : bool :=
  match r with Ok _ => true | Raise _ => false end.

(** The two actor chains built in [setup_prompt_templates]. *)
Inductive Chain : Type := initial_answer_chain | revision_chain.

(** One row of the produced table: the columns in order, each with its
    value; the table is the list of rows in insertion order. *)
Definition Row : Type := list (string * Json).
Definition Table : Type := list Row.

(** Calls on the collaborators, with their outcome, and what is written to
    the page. *)
Inductive Event : Type :=
| EvInvoke (c : Chain) (messages : list Message) (tags : list string) (out : Res AIMsg)
| EvRetrievalChain (chat_history question : string) (out : Res string)
| EvSimilaritySearch (query : Json) (out : Res (list Document))
| EvRailsConfig (path : string) (out : Res unit)
| EvGuardrails (input : string) (out : Res string)
| EvLLMShort (messages : list Message) (out : Res AIMsg)
| EvGraphStream (input : list Message)
| EvWrite (m : Message).

(** The exception a recorded call ended with, if it did. *)
Definition ev_fault (ev : Event) : option exn :=
  match ev with
  | EvInvoke _ _ _ (Raise e) => Some e
  | EvRetrievalChain _ _ (Raise e) => Some e
  | EvSimilaritySearch _ (Raise e) => Some e
  | EvRailsConfig _ (Raise e) => Some e
  | EvGuardrails _ (Raise e) => Some e
  | EvLLMShort _ (Raise e) => Some e
  | _ => None
  end.

(** The interface of the collaborators over their own state [Ext], and the
    library functions whose result the code only passes along. *)
Class Collaborators (Ext : Type) : Type := {
  (** [chain.invoke({"messages": ...}, {"tags": ...})] *)
  chain_invoke : Chain -> list Message -> list string -> Ext -> Res AIMsg * Ext;
  (** [retrieval_chain({"chat_history": ..., "question": ...})['answer']] *)
  retrieval_chain : string -> string -> Ext -> Res string * Ext;
  (** [db.similarity_search(...)] *)
  similarity_search : Json -> Ext -> Res (list Document) * Ext;
  (** [RailsConfig.from_path(...)] *)
  rails_from_path : string -> Ext -> Res unit * Ext;
  (** [chain_with_guardrails.invoke(...)] *)
  guardrails_invoke : string -> Ext -> Res string * Ext;
  (** [llm_short] applied to rendered prompt messages *)
  llm_short_invoke : list Message -> Ext -> Res AIMsg * Ext;
  (** [str] of a list of documents *)
  str_of_documents : list Document -> string;
  (** the content the tool node gives a tool message for a list of results *)
  str_of_results : list string -> string;
  (** the [search_queries] a structured tool binds from an invocation's
      arguments *)
  bind_search_queries : Json -> Res (list string);
  (** what the data frame stores for a cell given as a list or a dict *)
  frame_nonscalar : Json -> Res Json
}.

(** ** Python helpers *)

Definition nl : string := String (Ascii.ascii_of_nat 10) EmptyString.

(** [xs[i]] on a list, negative indices counting from the end. *)
Definition py_index {A} (xs : list A) (i : Z) : Res A :=
  let j := if (i <? 0) then Z.of_nat (length xs) + i else i in
  if (j <? 0) then Raise IndexError
  else match xs !! Z.to_nat j with
       | Some x => Ok x
       | None => Raise IndexError
       end.

Fixpoint assoc (k : string) (fields : list (string * Json)) : option Json :=
  match fields with
  | [] => None
  | (k', v) :: rest => if String.eqb k k' then Some v else assoc k rest
  end.

(** [d[k]] on a decoded value: only dicts can be indexed by a string. *)
Definition py_getitem (d : Json) (k : string) : Res Json :=
  match d with
  | JObj fields =>
      match assoc k fields with
      | Some v => Ok v
      | None => Raise (KeyError k)
      end
  | _ => Raise TypeError
  end.

(** ["literal" + x]: string concatenation needs a string. *)
Definition py_str_add (s : string) (x : Json) : Res string :=
  match x with
  | JStr t => Ok (s +:+ t)
  | _ => Raise TypeError
  end.

(** [f"attempt:{attempt}"] *)
Definition attempt_tag (attempt : nat) : string :=
  "attempt:" +:+ NilEmpty.string_of_uint (Nat.to_uint attempt).

(** ** The world and the monad of the program *)

Section Program.
Context {Ext : Type} `{Collaborators Ext}.

(** The heap holds the list objects (conversation histories) by reference:
    a location is the index of an allocation. *)
Definition loc : Type := nat.

Record World : Type := mkWorld {
  ext : Ext;
  heap : list (list Message);
  trace : list Event;
  hypothesisdf_all : Table
}.

Definition M (A : Type) : Type := World -> Res A * World.

Definition ret {A} (a : A) : M A := fun w => (Ok a, w).
Definition raise {A} (e : exn) : M A := fun w => (Raise e, w).
Definition bind {A B} (m : M A) (f : A -> M B) : M B :=
  fun w => match m w with
           | (Ok a, w') => f a w'
           | (Raise e, w') => (Raise e, w')
           end.
Definition lift {A} (r : Res A) : M A := fun w => (r, w).

Notation "x <- m ;; k" := (bind m (fun x => k))
  (at level 100, m at next level, right associativity).
Notation "m ;;; k" := (bind m (fun _ => k))
  (at level 100, right associativity).

(** A call on a collaborator: its state advances and the call is recorded,
    also when it fails. *)
Definition call {A} (f : Ext -> Res A * Ext) (ev : Res A -> Event) : M A :=
  fun w => let '(r, s') := f (ext w) in
           (r, mkWorld s' (heap w) (trace w ++ [ev r]) (hypothesisdf_all w)).

Definition emit (ev : Event) : M unit :=
  fun w => (Ok tt, mkWorld (ext w) (heap w) (trace w ++ [ev]) (hypothesisdf_all w)).

(** A new list object. *)
Definition alloc (xs : list Message) : M loc :=
  fun w => (Ok (length (heap w)),
            mkWorld (ext w) (heap w ++ [xs]) (trace w) (hypothesisdf_all w)).

(** Reading a list object through a reference.  References come from
    [alloc] and always point to a list; the other case is there to make the
    function total. *)
Definition deref (l : loc) : M (list Message) :=
  fun w => match heap w !! l with
           | Some xs => (Ok xs, w)
           | None => (Raise ValueError, w)
           end.

(** [a + b] on lists builds a new list object and leaves [a] as it is. *)
Definition list_add (l : loc) (extra : list Message) : M loc :=
  xs <- deref l ;; alloc (xs ++ extra).

(** [hypothesisdf_all = pd.concat([hypothesisdf_all, row], ignore_index=True)] *)
Definition concat_row (row : Row) : M unit :=
  fun w => (Ok tt, mkWorld (ext w) (heap w) (trace w) (hypothesisdf_all w ++ [row])%list).

Definition get_table : M Table := fun w => (Ok (hypothesisdf_all w), w).
Definition set_table (t : Table) : M unit :=
  fun w => (Ok tt, mkWorld (ext w) (heap w) (trace w) t).

(** Observations of a run from a world. *)
Definition result {A} (m : M A) (w : World) : Res A := fst (m w).
Definition after {A} (m : M A) (w : World) : World := snd (m w).
Definition emitted {A} (m : M A) (w : World) : list Event :=
  drop (length (trace w)) (trace (after m w)).

(** ** ResponderWithRetries *)

(** The validator: [invoke] parses a response against the schema and raises
    [ValidationError] when it does not bind; [schema_json] restates the
    schema. *)
Record Validator : Type := mkValidator {
  v_invoke : AIMsg -> Res unit;
  v_schema_json : string
}.

Record ResponderWithRetries : Type := mkResponder {
  runnable : Chain;
  validator : Validator
}.

Definition invoke_chain (c : Chain) (state : loc) (tags : list string) : M AIMsg :=
  messages <- deref state ;;
  call (chain_invoke c messages tags) (EvInvoke c messages tags).

Definition corrective_content (self : ResponderWithRetries) (repr_e : string) : string :=
  repr_e +:+ nl +:+ nl +:+ "Pay close attention to the function schema." +:+ nl +:+ nl
  +:+ v_schema_json (validator self)
  +:+ " Respond by fixing all validation errors.".

(** The body of [for attempt in range(3)], with [state] the list the name is
    bound to and [response] the value bound by the previous attempt.  Only
    [validator.invoke] is inside the [try]: what the chain raises, and what
    the handler itself raises, leaves [respond].  After the loop the last
    response is returned ([range(3)] is not empty, so it is bound). *)
Fixpoint respond_loop (self : ResponderWithRetries) (attempts : list nat)
    (state : loc) (response : option AIMsg) : M AIMsg :=
  match attempts with
  | [] =>
      match response with
      | Some r => ret r
      | None => raise ValueError
      end
  | attempt :: rest =>
      response <- invoke_chain (runnable self) state [attempt_tag attempt] ;;
      match v_invoke (validator self) response with
      | Ok _ => ret response
      | Raise (ValidationError repr_e) =>
          let content := corrective_content self repr_e in
          first_call <- lift (py_index (tool_calls response) 0) ;;
          state' <- list_add state
                      [AIMessage response; ToolMessage content (tc_id first_call)] ;;
          respond_loop self rest state' (Some response)
      | Raise e => raise e
      end
  end.

Definition respond (self : ResponderWithRetries) (state : loc) : M AIMsg :=
  respond_loop self (seq 0 3) state None.

(** ** The tool execution stage *)

(** [run_queries]: the closure given to the tool node under both schema
    names. *)
Fixpoint run_queries_from (results : list string) (search_queries : list string)
    : M (list string) :=
  match search_queries with
  | [] => ret results
  | query :: rest =>
      response <- call (retrieval_chain "" query) (EvRetrievalChain "" query) ;;
      run_queries_from (results ++ [response]) rest
  end.

Definition run_queries (search_queries : list string) : M (list string) :=
  run_queries_from [] search_queries.

(** The tools of the tool node, by name. *)
Definition tools_by_name : list (string * (list string -> M (list string))) :=
  [("AnswerQuestion", run_queries); ("ReviseAnswer", run_queries)].

Fixpoint lookup_tool (name : string)
    (tools : list (string * (list string -> M (list string))))
    : option (list string -> M (list string)) :=
  match tools with
  | [] => None
  | (n, f) :: rest => if String.eqb name n then Some f else lookup_tool name rest
  end.

(** One tool invocation, as the tool node of the graph library runs it: the
    tool is looked up by the invoked schema's name, its [search_queries]
    argument is bound from the invocation's arguments, and the result comes
    back as a tool message with the invocation's id.  Nothing is caught. *)
Definition run_one (tc : ToolCall) : M Message :=
  match lookup_tool (tc_name tc) tools_by_name with
  | None => raise (KeyError (tc_name tc))
  | Some tool =>
      search_queries <- lift (bind_search_queries (tc_args tc)) ;;
      output <- tool search_queries ;;
      ret (ToolMessage (str_of_results output) (tc_id tc))
  end.

Fixpoint run_all (tcs : list ToolCall) : M (list Message) :=
  match tcs with
  | [] => ret []
  | tc :: rest =>
      m <- run_one tc ;;
      ms <- run_all rest ;;
      ret (m :: ms)
  end.

(** The tool node: the invocations of the last message, which has to be an
    AI message, in their order. *)
Definition tool_node (state : list Message) : M (list Message) :=
  message <- lift (py_index state (-1)) ;;
  match message with
  | AIMessage m => run_all (tool_calls m)
  | _ => raise ValueError
  end.

(** ** HypothesisGenerator *)

Record HypothesisGenerator : Type := mkGenerator {
  agent_iterations : Z;
  iterations : Z;
  (** [PydanticToolsParser(tools=[AnswerQuestion])] *)
  gen_validator : Validator;
  (** [PydanticToolsParser(tools=[ReviseAnswer])] *)
  revision_validator : Validator;
  (** the step limit of the compiled graph (a setting of the graph library) *)
  recursion_limit : nat
}.

Definition first_responder (self : HypothesisGenerator) : ResponderWithRetries :=
  mkResponder initial_answer_chain (gen_validator self).

Definition revisor (self : HypothesisGenerator) : ResponderWithRetries :=
  mkResponder revision_chain (revision_validator self).

(** [m.type not in {"tool", "ai"}] *)
Definition not_tool_or_ai (m : Message) : bool :=
  negb (existsb (String.eqb (msg_type m)) ["tool"; "ai"]).

(** The loop of [_get_num_iterations] over [state[::-1]], from count [i]. *)
Fixpoint count_until_break (reversed : list Message) (i : nat) : nat :=
  match reversed with
  | [] => i
  | m :: rest => if not_tool_or_ai m then i else count_until_break rest (i + 1)
  end.

Definition _get_num_iterations (state : list Message) : nat :=
  count_until_break (rev state) 0.

Definition END : string := "__end__".

Definition event_loop (self : HypothesisGenerator) (state : list Message) : string :=
  let num_iterations := _get_num_iterations state in
  if (Z.of_nat num_iterations >? agent_iterations self) then END
  else "execute_tools".

(** *** The graph of [setup_graph] *)

Inductive Node : Type := draft | execute_tools | revise.

Definition node_of_name (name : string) : option Node :=
  if String.eqb name "draft" then Some draft
  else if String.eqb name "execute_tools" then Some execute_tools
  else if String.eqb name "revise" then Some revise
  else None.

(** A node gets the current history and returns the messages to append. *)
Definition run_node (self : HypothesisGenerator) (n : Node) (state : list Message)
    : M (list Message) :=
  match n with
  | draft =>
      l <- alloc state ;;
      response <- respond (first_responder self) l ;;
      ret [AIMessage response]
  | execute_tools => tool_node state
  | revise =>
      l <- alloc state ;;
      response <- respond (revisor self) l ;;
      ret [AIMessage response]
  end.

(** The edges: [None] is the end of the graph. *)
Definition next_node (self : HypothesisGenerator) (n : Node) (state : list Message)
    : option Node :=
  match n with
  | draft => Some execute_tools
  | execute_tools => Some revise
  | revise => node_of_name (event_loop self state)
  end.

(** The driver of the compiled graph: run the node, append what it returns,
    hand the new history to the consumer of the stream, follow the edge; at
    most [fuel] steps, after which the graph library gives up. *)
Fixpoint graph_steps (self : HypothesisGenerator) (on_step : list Message -> M unit)
    (fuel : nat) (n : Node) (state : list Message) : M (list Message) :=
  match fuel with
  | O => raise GraphRecursionError
  | S fuel' =>
      out <- run_node self n state ;;
      let state' := (state ++ out)%list in
      on_step state' ;;;
      match next_node self n state' with
      | None => ret state'
      | Some n' => graph_steps self on_step fuel' n' state'
      end
  end.

(** [for step in graph.stream(input, stream_mode="values"): on_step(step)];
    the result is the last [step]. *)
Definition graph_stream (self : HypothesisGenerator) (input : list Message)
    (on_step : list Message -> M unit) : M (list Message) :=
  emit (EvGraphStream input) ;;;
  on_step input ;;;
  graph_steps self on_step (recursion_limit self) draft input.

(** *** Prompt templates

    A template is kept in parsed form: literal text and input variables. *)

Inductive Piece : Type := Lit (s : string) | Var (name : string).

Definition ChatPromptTemplate : Type := list (string * list Piece).

Definition format_piece (input : string) (p : Piece) : string :=
  match p with
  | Lit s => s
  | Var _ => input
  end.

Definition format_template (input : string) (t : list Piece) : string :=
  foldr (fun p acc => format_piece input p +:+ acc) "" t.

Definition message_of_role (role content : string) : Res Message :=
  if String.eqb role "system" then Ok (SystemMessage content)
  else if String.eqb role "user" then Ok (HumanMessage content)
  else Raise ValueError.

(** The messages of a prompt with one input variable, given its value. *)
Fixpoint format_messages (prompt : ChatPromptTemplate) (input : string)
    : Res (list Message) :=
  match prompt with
  | [] => Ok []
  | (role, t) :: rest =>
      match message_of_role role (format_template input t) with
      | Raise e => Raise e
      | Ok m =>
          match format_messages rest input with
          | Raise e => Raise e
          | Ok ms => Ok (m :: ms)
          end
      end
  end.

(** [prompt | self.llm_short | StrOutputParser()] *)
Definition llm_short_chain (prompt : ChatPromptTemplate) (input : string) : M string :=
  messages <- lift (format_messages prompt input) ;;
  response <- call (llm_short_invoke messages) (EvLLMShort messages) ;;
  ret (ai_content response).

(** *** generate_hypotheses *)

Definition seed_text : string :=
  "Come up with new hypotheses in the context. ALWAYS make sure that your hypothesis is novel compared to the following known hypotheses (don't include the known hypotheses and don't generate anything related to them conceptually): ".

(** [step[-1].tool_calls[0]["args"]] *)
Definition final_args (step : list Message) : Res Json :=
  match py_index step (-1) with
  | Raise e => Raise e
  | Ok (AIMessage m) =>
      match py_index (tool_calls m) 0 with
      | Raise e => Raise e
      | Ok tc => Ok (tc_args tc)
      end
  | Ok _ => Raise AttributeError
  end.

(** [step[-1].tool_calls[0]["args"]["reflection"][field]] *)
Definition final_reflection (step : list Message) (field : string) : Res Json :=
  match final_args step with
  | Raise e => Raise e
  | Ok args =>
      match py_getitem args "reflection" with
      | Raise e => Raise e
      | Ok reflection => py_getitem reflection field
      end
  end.

(** [step[-1].tool_calls[0]["args"]["answer"]] *)
Definition final_answer (step : list Message) : Res Json :=
  match final_args step with
  | Raise e => Raise e
  | Ok args => py_getitem args "answer"
  end.

(** The cell the data frame stores for a value: a scalar as it is. *)
Definition frame_cell (v : Json) : Res Json :=
  match v with
  | JList _ | JObj _ => frame_nonscalar v
  | _ => Ok v
  end.

(** [pd.DataFrame({...}, index=[0])]: one row, the columns in the order of
    the dict. *)
Fixpoint DataFrame (columns : list (string * Json)) : Res Row :=
  match columns with
  | [] => Ok []
  | (name, v) :: rest =>
      match frame_cell v with
      | Raise e => Raise e
      | Ok c =>
          match DataFrame rest with
          | Raise e => Raise e
          | Ok row => Ok ((name, c) :: row)
          end
      end
  end.

(** [st.write(step[-1])] *)
Definition write_last (step : list Message) : M unit :=
  m <- lift (py_index step (-1)) ;;
  emit (EvWrite m).

(** The body of [for hypothesis_cycle in range(self.iterations)]; the result
    is the new value of [notnovelhyp].  As in the source, [prompt_short] is
    built from the short name and [chain_short] is then built, a second
    time, from [prompt].  The values of the dict given to [pd.DataFrame] are
    evaluated in the order of its keys, the two chains last. *)
Definition hypothesis_cycle (self : HypothesisGenerator) (notnovelhyp : string)
    : M string :=
  step <- graph_stream self [HumanMessage (seed_text +:+ notnovelhyp)] write_last ;;
  let prompt : ChatPromptTemplate :=
    [("system", [Lit "You are world class technical documentation writer."]);
     ("user", [Var "input"])] in
  call (rails_from_path "config") (EvRailsConfig "config") ;;;
  let chain_short := llm_short_chain prompt in
  shortname_hyp <- lift (final_reflection step "shortname") ;;
  documents <- call (similarity_search shortname_hyp) (EvSimilaritySearch shortname_hyp) ;;
  let listofpapers := str_of_documents documents in
  system_short <- lift (py_str_add "You are world class technical documentation writer. Given a list of publications, decide how the following hypothesis relates to it: " shortname_hyp) ;;
  let prompt_short : ChatPromptTemplate :=
    [("system", [Lit system_short]);
     ("user", [Lit "The list of publications: "; Var "input"])] in
  let chain_short := llm_short_chain prompt in
  shortname <- lift (final_reflection step "shortname") ;;
  answer <- lift (final_answer step) ;;
  noveltyscore <- lift (final_reflection step "noveltyscore") ;;
  notnovel <- lift (final_reflection step "notnovel") ;;
  missing <- lift (final_reflection step "missing") ;;
  superfluous <- lift (final_reflection step "superfluous") ;;
  flag <- lift (final_reflection step "flag") ;;
  references_field <- lift (final_reflection step "references_field") ;;
  answer' <- lift (final_answer step) ;;
  question <- lift (py_str_add "Does the following contain any restricted topics?: " answer') ;;
  biohazard <- call (guardrails_invoke question) (EvGuardrails question) ;;
  relations <- chain_short listofpapers ;;
  hypothesisdf <- lift (DataFrame
    [("Hypotheses short description", shortname);
     ("Generated Hypotheses", answer);
     ("Novelty", noveltyscore);
     ("What is not novel", notnovel);
     ("Missing", missing);
     ("Superfluous", superfluous);
     ("Flag", flag);
     ("References", references_field);
     ("Biohazard", JStr biohazard);
     ("Relations to literature", JStr relations)]) ;;
  concat_row hypothesisdf ;;;
  shortname' <- lift (final_reflection step "shortname") ;;
  lift (py_str_add notnovelhyp shortname').

Fixpoint hypothesis_cycles (self : HypothesisGenerator) (n : nat) (notnovelhyp : string)
    : M string :=
  match n with
  | O => ret notnovelhyp
  | S n' =>
      notnovelhyp' <- hypothesis_cycle self notnovelhyp ;;
      hypothesis_cycles self n' notnovelhyp'
  end.

Definition generate_hypotheses (self : HypothesisGenerator) : M Table :=
  l <- alloc [HumanMessage "Come up with new hypotheses in the context."] ;;
  initial <- respond (first_responder self) l ;;
  set_table [] ;;;
  hypothesis_cycles self (Z.to_nat (iterations self)) "" ;;;
  get_table.

End Program.

Arguments World Ext : clear implicits.
Arguments M Ext A : clear implicits.

Notation "x <- m ;; k" := (bind m (fun x => k))
  (at level 100, m at next level, right associativity).
Notation "m ;;; k" := (bind m (fun _ => k))
  (at level 100, right associativity).

(** * Observations and specifications

    What the properties below are stated with: relations and predicates on
    runs, traces and tables. *)

(** ** The relation a run of [respond] satisfies

    [respond_run self history attempts response events res]: from the
    history [history], with the attempts [attempts] left and [response] the
    response of the previous attempt, the loop makes the calls [events] and
    ends with [res]. *)
Inductive respond_run (self : ResponderWithRetries)
    : list Message -> list nat -> option AIMsg -> list Event -> Res AIMsg -> Prop :=
| run_exhausted history r :
    respond_run self history [] (Some r) [] (Ok r)
| run_unbound history :
    respond_run self history [] None [] (Raise ValueError)
| run_fault history attempt rest last e :
    respond_run self history (attempt :: rest) last
      [EvInvoke (runnable self) history [attempt_tag attempt] (Raise e)] (Raise e)
| run_valid history attempt rest last r :
    v_invoke (validator self) r = Ok tt ->
    respond_run self history (attempt :: rest) last
      [EvInvoke (runnable self) history [attempt_tag attempt] (Ok r)] (Ok r)
| run_other history attempt rest last r e :
    v_invoke (validator self) r = Raise e ->
    (forall repr_e, e <> ValidationError repr_e) ->
    respond_run self history (attempt :: rest) last
      [EvInvoke (runnable self) history [attempt_tag attempt] (Ok r)] (Raise e)
| run_no_call history attempt rest last r repr_e :
    v_invoke (validator self) r = Raise (ValidationError repr_e) ->
    tool_calls r = [] ->
    respond_run self history (attempt :: rest) last
      [EvInvoke (runnable self) history [attempt_tag attempt] (Ok r)] (Raise IndexError)
| run_retry history attempt rest last r repr_e tc tcs events res :
    v_invoke (validator self) r = Raise (ValidationError repr_e) ->
    tool_calls r = tc :: tcs ->
    respond_run self
      (history ++ [AIMessage r; ToolMessage (corrective_content self repr_e) (tc_id tc)])
      rest (Some r) events res ->
    respond_run self history (attempt :: rest) last
      (EvInvoke (runnable self) history [attempt_tag attempt] (Ok r) :: events) res.

(** The response a recorded invocation of the chain [c] returned. *)
Definition ev_response (c : Chain) (ev : Event) : option AIMsg :=
  match ev with
  | EvInvoke c' _ _ (Ok r) =>
      match c, c' with
      | initial_answer_chain, initial_answer_chain => Some r
      | revision_chain, revision_chain => Some r
      | _, _ => None
      end
  | _ => None
  end.

(** The validator raises [ValidationError] on the response. *)
Definition rejects (v : Validator) (r : AIMsg) : bool :=
  match v_invoke v r with
  | Raise (ValidationError _) => true
  | _ => false
  end.

Definition has_call (r : AIMsg) : bool :=
  match tool_calls r with
  | [] => false
  | _ :: _ => true
  end.

(** The recorded call is an invocation of the responder's chain that
    returned a response the validator rejects. *)
Definition attempt_rejected (self : ResponderWithRetries) (ev : Event) : bool :=
  match ev_response (runnable self) ev with
  | Some r => rejects (validator self) r
  | None => false
  end.

(** The same, the response carrying at least one tool invocation. *)
Definition attempt_rejected_with_call (self : ResponderWithRetries) (ev : Event) : bool :=
  match ev_response (runnable self) ev with
  | Some r => rejects (validator self) r && has_call r
  | None => false
  end.

Definition is_invoke_of (c : Chain) (ev : Event) : Prop :=
  exists messages tags out, ev = EvInvoke c messages tags out.

(** The state of the collaborators after a recorded call. *)
Definition advance {Ext} `{Collaborators Ext} (s : Ext) (ev : Event) : Ext :=
  match ev with
  | EvInvoke c messages tags _ => snd (chain_invoke c messages tags s)
  | EvRetrievalChain h q _ => snd (retrieval_chain h q s)
  | EvSimilaritySearch q _ => snd (similarity_search q s)
  | EvRailsConfig p _ => snd (rails_from_path p s)
  | EvGuardrails i _ => snd (guardrails_invoke i s)
  | EvLLMShort ms _ => snd (llm_short_invoke ms s)
  | EvGraphStream _ | EvWrite _ => s
  end.

(** The answers of the retriever to the queries, asked one after the other
    from the state [s], up to the first failure. *)
Fixpoint answers_in_order {Ext} `{Collaborators Ext} (s : Ext) (queries : list string)
    : list (Res string) :=
  match queries with
  | [] => []
  | q :: rest =>
      let '(r, s') := retrieval_chain "" q s in
      r :: match r with
           | Ok _ => answers_in_order s' rest
           | Raise _ => []
           end
  end.

(** The values of a list of outcomes, or its first exception. *)
Fixpoint collect {A} (outs : list (Res A)) : Res (list A) :=
  match outs with
  | [] => Ok []
  | Ok a :: rest =>
      match collect rest with
      | Ok xs => Ok (a :: xs)
      | Raise e => Raise e
      end
  | Raise e :: _ => Raise e
  end.

(** The columns of the produced table, in order: short name, answer,
    novelty score, not novel, missing, superfluous, flag, references, safety
    annotation, relation to the literature. *)
Definition columns : list string :=
  ["Hypotheses short description"; "Generated Hypotheses"; "Novelty";
   "What is not novel"; "Missing"; "Superfluous"; "Flag"; "References";
   "Biohazard"; "Relations to literature"].

Definition is_null (v : Json) : bool :=
  match v with JNull => true | _ => false end.

Definition is_scalar (v : Json) : bool :=
  match v with JList _ | JObj _ => false | _ => true end.

(** The recorded event is not the start of a graph run. *)
Definition not_stream (ev : Event) : Prop :=
  match ev with
  | EvGraphStream _ => False
  | _ => True
  end.

(** The inputs of the graph runs recorded in a trace, in order. *)
Fixpoint stream_inputs (events : list Event) : list (list Message) :=
  match events with
  | [] => []
  | EvGraphStream input :: rest => input :: stream_inputs rest
  | _ :: rest => stream_inputs rest
  end.

(** The seeds of the graph runs of a session that starts with the
    accumulator [acc] and produces the short names [names], one after the
    other. *)
Fixpoint seeds (acc : string) (names : list string) : list (list Message) :=
  match names with
  | [] => []
  | name :: rest => [HumanMessage (seed_text +:+ acc)] :: seeds (acc +:+ name) rest
  end.

(** The row has the declared columns, in order, and the short name [name]. *)
Definition named_row (name : string) (row : Row) : Prop :=
  map fst row = columns
  /\ assoc "Hypotheses short description" row = Some (JStr name).

(** The final message binds the six critique fields to values that are
    neither null nor a list or dict. *)
Definition field_present (step : list Message) (field : string) : bool :=
  match final_reflection step field with
  | Ok v => is_scalar v && negb (is_null v)
  | Raise _ => false
  end.

Definition fields_present (step : list Message) : bool :=
  forallb (field_present step)
    ["noveltyscore"; "notnovel"; "missing"; "superfluous"; "flag"; "references_field"].

(** The fields of the schema class [Reflection]; like [answer] of
    [AnswerQuestion] they are declared [str] and have no default. *)
Definition Reflection_fields : list string :=
  ["missing"; "superfluous"; "notnovel"; "shortname"; "noveltyscore";
   "references_field"; "flag"].

(** The dict binds the key to a value that is neither null nor a list or
    dict. *)
Definition holds (d : Json) (k : string) : bool :=
  match py_getitem d k with
  | Ok v => is_scalar v && negb (is_null v)
  | Raise _ => false
  end.

(** The arguments of an invocation bind [answer] and every field of
    [reflection]. *)
Definition fields_bound (args : Json) : bool :=
  holds args "answer"
  && match py_getitem args "reflection" with
     | Ok d => forallb (holds d) Reflection_fields
     | Raise _ => false
     end.

(** A validator over the schema classes accepts a response only when each
    of its invocations binds these fields. *)
Definition schema_abiding (v : Validator) : Prop :=
  forall r,
    v_invoke v r = Ok tt ->
    forallb (fun tc => fields_bound (tc_args tc)) (tool_calls r) = true.

(** No cell of the row is null. *)
Definition no_null (row : Row) : Prop :=
  Forall (fun cell => is_null (snd cell) = false) row.

(** The last message of the history yields a full row: its first invocation
    binds the short name and the answer to text and the six critique fields
    to values the data frame takes. *)
Definition row_ready {Ext} `{Collaborators Ext} (step : list Message) : bool :=
  match final_reflection step "shortname", final_answer step with
  | Ok (JStr _), Ok (JStr _) =>
      forallb
        (fun field =>
           match final_reflection step field with
           | Ok v => is_ok (frame_cell v)
           | Raise _ => false
           end)
        ["noveltyscore"; "notnovel"; "missing"; "superfluous"; "flag"; "references_field"]
  | _, _ => false
  end.

(** The tool node can run the invocation: its tool exists and its queries
    bind. *)
Definition runnable_call {Ext} `{Collaborators Ext} (tc : ToolCall) : bool :=
  match lookup_tool (Ext := Ext) (tc_name tc) tools_by_name with
  | Some _ => is_ok (bind_search_queries (tc_args tc))
  | None => false
  end.

(** The validator of the responder that invokes the chain: the parser of
    [AnswerQuestion] for the drafting chain, that of [ReviseAnswer] for the
    revision chain. *)
Definition validator_of (self : HypothesisGenerator) (c : Chain) : Validator :=
  match c with
  | initial_answer_chain => gen_validator self
  | revision_chain => revision_validator self
  end.

(** A response of the chain [c] that the validator of its responder
    accepts, whose invocations the tool node can run and that yields a full
    row. *)
Definition well_formed {Ext} `{Collaborators Ext} (self : HypothesisGenerator)
    (c : Chain) (r : AIMsg) : Prop :=
  v_invoke (validator_of self c) r = Ok tt
  /\ forallb runnable_call (tool_calls r) = true
  /\ row_ready [AIMessage r] = true.

(** Collaborators that never fail, each chain always giving a response that
    is well formed for it. *)
Definition cooperative {Ext} `{Collaborators Ext} (self : HypothesisGenerator) : Prop :=
  (forall c messages tags s,
     exists r s', chain_invoke c messages tags s = (Ok r, s') /\ well_formed self c r)
  /\ (forall h q s, exists a s', retrieval_chain h q s = (Ok a, s'))
  /\ (forall q s, exists docs s', similarity_search q s = (Ok docs, s'))
  /\ (forall p s, exists s', rails_from_path p s = (Ok tt, s'))
  /\ (forall i s, exists b s', guardrails_invoke i s = (Ok b, s'))
  /\ (forall ms s, exists r s', llm_short_invoke ms s = (Ok r, s')).

(** The recorded call did not fail. *)
Definition faultless (ev : Event) : bool :=
  match ev_fault ev with
  | None => true
  | Some _ => false
  end.

(** The inputs of the relation chain recorded in a trace. *)
Fixpoint relation_inputs (events : list Event) : list (list Message) :=
  match events with
  | [] => []
  | EvLLMShort messages _ :: rest => messages :: relation_inputs rest
  | _ :: rest => relation_inputs rest
  end.

Definition msg_content (m : Message) : string :=
  match m with
  | HumanMessage c | ToolMessage c _ | SystemMessage c => c
  | AIMessage r => ai_content r
  end.

(** The text [needle] occurs in the content of the message. *)
Definition mentions (needle : string) (m : Message) : bool :=
  match String.index 0 needle (msg_content m) with
  | Some _ => true
  | None => false
  end.

(** No constraint between the table before and the table after. *)
Definition any_table (t t' : Table) : Prop := True.

(** The table [t'] is the table [t] with rows appended. *)
Definition extended (t t' : Table) : Prop := exists rows, t' = (t ++ rows)%list.

(** What a completed run of the loop body from [w] to [w'] with the
    accumulator [acc] has done: [step] is the final history of the graph,
    the fields are those of its last message's first invocation, [docs],
    [b] and [r] are what the vector store, the guardrails chain and
    [llm_short] returned, and [row] is the appended row. *)
Inductive cycle_completed {Ext} `{Collaborators Ext} (self : HypothesisGenerator)
    (acc : string) (w w' : World Ext) (res : Res string) : Prop :=
| Completed (step : list Message) (w1 : World Ext) (s a : string)
    (noveltyscore notnovel missing superfluous flag references_field : Json)
    (docs : list Document) (b : string) (r : AIMsg) (row : Row)
    (graph_events : list Event) :
    graph_stream self [HumanMessage (seed_text +:+ acc)] write_last w = (Ok step, w1) ->
    final_reflection step "shortname" = Ok (JStr s) ->
    final_answer step = Ok (JStr a) ->
    final_reflection step "noveltyscore" = Ok noveltyscore ->
    final_reflection step "notnovel" = Ok notnovel ->
    final_reflection step "missing" = Ok missing ->
    final_reflection step "superfluous" = Ok superfluous ->
    final_reflection step "flag" = Ok flag ->
    final_reflection step "references_field" = Ok references_field ->
    Forall not_stream graph_events ->
    trace w' =
      (trace w ++ EvGraphStream [HumanMessage (seed_text +:+ acc)] :: graph_events
       ++ [EvRailsConfig "config" (Ok tt);
           EvSimilaritySearch (JStr s) (Ok docs);
           EvGuardrails ("Does the following contain any restricted topics?: " +:+ a) (Ok b);
           EvLLMShort
             [SystemMessage "You are world class technical documentation writer.";
              HumanMessage (str_of_documents docs)] (Ok r)])%list ->
    DataFrame
      [("Hypotheses short description", JStr s);
       ("Generated Hypotheses", JStr a);
       ("Novelty", noveltyscore);
       ("What is not novel", notnovel);
       ("Missing", missing);
       ("Superfluous", superfluous);
       ("Flag", flag);
       ("References", references_field);
       ("Biohazard", JStr b);
       ("Relations to literature", JStr (ai_content r))] = Ok row ->
    hypothesisdf_all w' = (hypothesisdf_all w ++ [row])%list ->
    res = Ok (acc +:+ s) ->
    cycle_completed self acc w w' res.

(** What an aborted run of the loop body has done: the exception is the
    outcome and the table is as before. *)
Definition cycle_aborted {Ext} (acc : string) (w w' : World Ext) (res : Res string)
    : Prop :=
  exists e events,
    res = Raise e
    /\ hypothesisdf_all w' = hypothesisdf_all w
    /\ trace w' = (trace w ++ EvGraphStream [HumanMessage (seed_text +:+ acc)] :: events)%list
    /\ Forall not_stream events.

(** The role of the message is [ai] or [tool]. *)
Definition ai_or_tool (m : Message) : Prop :=
  msg_type m = "ai" \/ msg_type m = "tool".

(** The recorded event is one a run of the graph can cause: an invocation of
    one of the two actor chains, a question to the retrieval chain with an
    empty chat history, or a write to the page. *)
Definition graph_event (ev : Event) : Prop :=
  match ev with
  | EvInvoke _ _ _ _ | EvWrite _ => True
  | EvRetrievalChain chat_history _ _ => chat_history = ""
  | _ => False
  end.

(** The world [w] with the session table replaced by [t]. *)
Definition with_table {Ext} (t : Table) (w : World Ext) : World Ext :=
  mkWorld (ext w) (heap w) (trace w) t.

(** The computation neither reads nor writes the session table. *)
Definition table_blind {Ext A} (m : M Ext A) : Prop :=
  forall w t, m (with_table t w) = (fst (m w), with_table t (snd (m w))).

(** ** Orderly computations

    What every part of the program does to the world: it only appends to
    the trace, only allocates on the heap, moves the collaborators only
    through the recorded calls, and an exception raised by a collaborator
    ends the computation as its result.  [P] bounds the recorded events and
    [T] relates the table before and after. *)

Definition raised {A} (r : Res A) : option exn :=
  match r with Ok _ => None | Raise e => Some e end.

Section Effects.
Context {Ext : Type} `{Collaborators Ext}.

Record effects_ok (P : Event -> Prop) (T : Table -> Table -> Prop) {A}
    (w : World Ext) (res : Res A) (w' : World Ext) (events : list Event) : Prop := {
  ok_trace : trace w' = (trace w ++ events)%list;
  ok_events : Forall P events;
  ok_heap : exists hs, heap w' = (heap w ++ hs)%list;
  ok_table : T (hypothesisdf_all w) (hypothesisdf_all w');
  ok_ext : ext w' = foldl advance (ext w) events;
  ok_faults : forall i ev e,
      events !! i = Some ev -> ev_fault ev = Some e ->
      raised res = Some e /\ length events = Datatypes.S i
}.

Definition orderly (P : Event -> Prop) (T : Table -> Table -> Prop) {A}
    (m : M Ext A) : Prop :=
  forall w res w', m w = (res, w') -> exists events, effects_ok P T w res w' events.

End Effects.

(** ** Scripted collaborators, for concrete runs *)

Module Stub.

(** The endpoint answers from a script; the other collaborators are fixed,
    the retriever failing on the question [boom]. *)
Definition Script : Type := list (Res AIMsg).

Definition pop (s : Script) : Res AIMsg * Script :=
  match s with
  | [] => (Raise (Fault "endpoint"), [])
  | r :: rest => (r, rest)
  end.

Fixpoint texts (xs : list Json) : Res (list string) :=
  match xs with
  | [] => Ok []
  | JStr s :: rest =>
      match texts rest with
      | Ok ss => Ok (s :: ss)
      | Raise e => Raise e
      end
  | _ :: _ => Raise (ValidationError "search_queries")
  end.

Definition search_queries_of (args : Json) : Res (list string) :=
  match py_getitem args "search_queries" with
  | Ok (JList xs) => texts xs
  | _ => Raise (ValidationError "search_queries")
  end.

#[global] Instance collaborators : Collaborators Script := {|
  chain_invoke _ _ _ s := pop s;
  retrieval_chain _ q s :=
    (if String.eqb q "boom" then Raise (Fault "retriever") else Ok ("about " +:+ q), s);
  similarity_search _ s := (Ok [mkDocument "P1"; mkDocument "P2"], s);
  rails_from_path _ s := (Ok tt, s);
  guardrails_invoke _ s := (Ok "No.", s);
  llm_short_invoke _ s := (Ok (mkAIMsg "Related." []), s);
  str_of_documents ds := String.concat "; " (map page_content ds);
  str_of_results rs := String.concat "; " rs;
  bind_search_queries := search_queries_of;
  frame_nonscalar _ := Raise ValueError
|}.

Definition is_text (v : Json) : bool :=
  match v with JStr _ => true | _ => false end.

Definition field_is_text (d : Json) (k : string) : bool :=
  match py_getitem d k with Ok v => is_text v | Raise _ => false end.

(** The fields of [Reflection] and of [AnswerQuestion], all present and
    bound to text. *)
Definition binds_Reflection (d : Json) : bool :=
  forallb (field_is_text d)
    ["missing"; "superfluous"; "notnovel"; "shortname"; "noveltyscore";
     "references_field"; "flag"].

Definition binds_AnswerQuestion (args : Json) : bool :=
  field_is_text args "answer"
  && match py_getitem args "reflection" with
     | Ok d => binds_Reflection d
     | Raise _ => false
     end
  && is_ok (search_queries_of args).

(** A validator in the manner of the tools parser: every invocation of the
    response has to bind. *)
Definition parser_validator : Validator :=
  mkValidator
    (fun r => if forallb (fun tc => binds_AnswerQuestion (tc_args tc)) (tool_calls r)
              then Ok tt else Raise (ValidationError "1 validation error"))
    "{schema}".

(** A validator that a caller of [ResponderWithRetries] may pass instead of
    a tools parser: it also rejects a response without any invocation.  It
    does not stand for the validators of [HypothesisGenerator], which
    accept such a response (see [parser_validator] and [tools_parser]). *)
Definition strict_validator : Validator :=
  mkValidator
    (fun r => if has_call r
                 && forallb (fun tc => binds_AnswerQuestion (tc_args tc)) (tool_calls r)
              then Ok tt else Raise (ValidationError "1 validation error"))
    "{schema}".

Definition reflection (shortname : string) (noveltyscore : Json) : Json :=
  JObj [("missing", JStr "m"); ("superfluous", JStr "s"); ("notnovel", JStr "n");
        ("shortname", JStr shortname); ("noveltyscore", noveltyscore);
        ("references_field", JStr "r"); ("flag", JStr "f")].

Definition answer_args (shortname : string) (noveltyscore : Json) (queries : list string)
    : Json :=
  JObj [("answer", JStr ("answer " +:+ shortname));
        ("reflection", reflection shortname noveltyscore);
        ("search_queries", JList (map JStr queries))].

(** A response that binds, one with a null field, and one without any
    invocation. *)
Definition good (shortname : string) : AIMsg :=
  mkAIMsg "" [mkToolCall "AnswerQuestion" (answer_args shortname (JStr "7") ["q1"; "q2"]) "call_1"].

Definition bad (shortname : string) : AIMsg :=
  mkAIMsg "" [mkToolCall "AnswerQuestion" (answer_args shortname JNull ["q1"]) "call_2"].

Definition bare : AIMsg := mkAIMsg "I cannot answer." [].

Definition world (script : Script) (histories : list (list Message)) : World Script :=
  mkWorld script histories [] [].

Definition responder : ResponderWithRetries :=
  mkResponder initial_answer_chain strict_validator.

(** A generator whose two validators do not look at the name of the
    invoked schema (see [program] for the two parsers by name). *)
Definition generator (n_agent n_iterations : Z) : HypothesisGenerator :=
  mkGenerator n_agent n_iterations parser_validator parser_validator 25.

Definition fresh : @World nat := mkWorld 0%nat [] [] [].

Definition hi : list Message := [HumanMessage "hi"].

(** Worlds whose only list object is [hi], for runs of [respond responder 0]. *)
Definition three_rejected : World Script :=
  world [Ok (bad "A"); Ok (bad "B"); Ok (bad "C")] [hi].

Definition rejected_then_valid : World Script :=
  world [Ok (bad "A"); Ok (good "B")] [hi].

Definition bare_first : World Script :=
  world [Ok bare; Ok (good "B")] [hi].

(** The endpoint fails on the retry. *)
Definition fault_on_retry : World Script :=
  world [Ok (bad "A"); Raise (Fault "timeout"); Ok (good "B")] [hi].

(** A validator that does not know the invoked schema raises [KeyError]. *)
Definition named_validator : Validator :=
  mkValidator
    (fun r => match tool_calls r with
              | tc :: _ =>
                  if String.eqb (tc_name tc) "AnswerQuestion"
                  then v_invoke strict_validator r
                  else Raise (KeyError (tc_name tc))
              | [] => v_invoke strict_validator r
              end)
    "{schema}".

Definition misnamed : AIMsg :=
  mkAIMsg "" [mkToolCall "Other" (answer_args "A" (JStr "7") ["q1"]) "call_4"].

Definition misnamed_first : World Script :=
  world [Ok misnamed; Ok (good "B")] [hi].

Definition named_responder : ResponderWithRetries :=
  mkResponder initial_answer_chain named_validator.

(** The two calls of [respond responder 0] from [rejected_then_valid]. *)
Definition first_call : Event :=
  EvInvoke initial_answer_chain hi ["attempt:0"] (Ok (bad "A")).

Definition second_call : Event :=
  EvInvoke initial_answer_chain
    (hi ++ [AIMessage (bad "A");
            ToolMessage (corrective_content responder "1 validation error") "call_2"])
    ["attempt:1"] (Ok (good "B")).

(** A response that binds and asks the retriever the failing question. *)
Definition failing_query (shortname : string) : AIMsg :=
  mkAIMsg "" [mkToolCall "AnswerQuestion" (answer_args shortname (JStr "7") ["q1"; "boom"]) "call_3"].

(** Sessions: the first response answers the call before the loop, then each
    iteration takes a draft and a revision (with [agent_iterations = 2]). *)
Definition two_iterations : World Script :=
  world [Ok (good "I"); Ok (good "A"); Ok (good "B"); Ok (good "C"); Ok (good "D")] [].

Definition fault_in_second : World Script :=
  world [Ok (good "I"); Ok (good "A"); Ok (good "B"); Ok (failing_query "C");
         Ok (good "D")] [].

Definition one_iteration : World Script :=
  world [Ok (good "I"); Ok (good "A"); Ok (good "KRAS")] [].

(** A response whose short name is null. *)
Definition unnamed : AIMsg :=
  mkAIMsg ""
    [mkToolCall "AnswerQuestion"
       (JObj [("answer", JStr "answer");
              ("reflection",
               JObj [("missing", JStr "m"); ("superfluous", JStr "s");
                     ("notnovel", JStr "n"); ("shortname", JNull);
                     ("noveltyscore", JStr "7"); ("references_field", JStr "r");
                     ("flag", JStr "f")]);
              ("search_queries", JList [JStr "q1"])])
       "call_5"].

(** Worlds for one run of the graph or of the loop body: a draft and the
    revision that ends the run (with [agent_iterations = 2]). *)
Definition draft_and_revision : World Script :=
  world [Ok (good "A"); Ok (good "B")] [].

Definition bare_revision : World Script :=
  world [Ok (good "A"); Ok bare] [].

Definition unnamed_revision : World Script :=
  world [Ok (good "A"); Ok unnamed; Ok unnamed; Ok unnamed] [].

(** The endpoint does not answer at all. *)
Definition silent : World Script := world [] [].

(** The tools parser for one schema class, as [HypothesisGenerator] builds
    its two validators: the invocations are parsed in their order; one of
    another name raises [KeyError], one whose arguments do not bind raises
    [ValidationError]; a response without invocation parses to nothing and
    is accepted. *)
Fixpoint parse_calls (name : string) (binds : Json -> bool) (tcs : list ToolCall)
    : Res unit :=
  match tcs with
  | [] => Ok tt
  | tc :: rest =>
      if String.eqb (tc_name tc) name then
        if binds (tc_args tc) then parse_calls name binds rest
        else Raise (ValidationError "1 validation error")
      else Raise (KeyError (tc_name tc))
  end.

Definition tools_parser (name : string) (binds : Json -> bool) : Validator :=
  mkValidator (fun r => parse_calls name binds (tool_calls r)) "{schema}".

(** [ReviseAnswer] adds [references], a list of text, to the fields of
    [AnswerQuestion]. *)
Definition binds_ReviseAnswer (args : Json) : bool :=
  binds_AnswerQuestion args
  && match py_getitem args "references" with
     | Ok (JList xs) => is_ok (texts xs)
     | _ => false
     end.

(** A generator with the two parsers of [setup_prompt_templates]. *)
Definition program (n_agent n_iterations : Z) : HypothesisGenerator :=
  mkGenerator n_agent n_iterations
    (tools_parser "AnswerQuestion" binds_AnswerQuestion)
    (tools_parser "ReviseAnswer" binds_ReviseAnswer) 25.

Definition revise_args (shortname : string) (noveltyscore : Json) : Json :=
  JObj [("answer", JStr ("answer " +:+ shortname));
        ("reflection", reflection shortname noveltyscore);
        ("search_queries", JList [JStr "q1"]);
        ("references", JList [JStr "PMID 1"])].

(** A revision that binds, and one whose novelty score is null. *)
Definition revised (shortname : string) : AIMsg :=
  mkAIMsg "" [mkToolCall "ReviseAnswer" (revise_args shortname (JStr "7")) "call_6"].

Definition revised_null (shortname : string) : AIMsg :=
  mkAIMsg "" [mkToolCall "ReviseAnswer" (revise_args shortname JNull) "call_7"].

(** Collaborators over a call counter that never fail: the drafting chain
    answers with an invocation of [AnswerQuestion], the revision chain with
    one of [ReviseAnswer]. *)
Definition faithful : Collaborators nat := {|
  chain_invoke c _ _ n :=
    (Ok match c with
        | initial_answer_chain => good "H"
        | revision_chain => revised "H"
        end, Datatypes.S n);
  retrieval_chain _ q n := (Ok ("about " +:+ q), Datatypes.S n);
  similarity_search _ n := (Ok [mkDocument "P1"], Datatypes.S n);
  rails_from_path _ n := (Ok tt, Datatypes.S n);
  guardrails_invoke _ n := (Ok "No.", Datatypes.S n);
  llm_short_invoke _ n := (Ok (mkAIMsg "Related." []), Datatypes.S n);
  str_of_documents ds := String.concat "; " (map page_content ds);
  str_of_results rs := String.concat "; " rs;
  bind_search_queries := search_queries_of;
  frame_nonscalar _ := Raise ValueError
|}.

(** Sessions of [program] (with [agent_iterations = 2]): two iterations; an
    iteration whose revision is rejected three times for its null field
    and returned; an iteration whose revision carries no invocation. *)
Definition program_two : World Script :=
  world [Ok (good "I"); Ok (good "A"); Ok (revised "B"); Ok (good "C"); Ok (revised "D")] [].

Definition program_cycle : World Script :=
  world [Ok (good "A"); Ok (revised "B")] [].

Definition program_null : World Script :=
  world [Ok (good "I"); Ok (good "A");
         Ok (revised_null "N"); Ok (revised_null "N"); Ok (revised_null "N")] [].

Definition program_bare : World Script :=
  world [Ok (good "I"); Ok (good "A"); Ok bare] [].

(** The endpoint answers every attempt with plain text. *)
Definition bare_always : World Script :=
  world [Ok bare; Ok bare; Ok bare] [hi].

(** The table an earlier session left. *)
Definition old_table : Table := [[("Hypotheses short description", JStr "old")]].

Definition seed : list Message := [HumanMessage "seed"].

End Stub.

(** * Properties *)

Section Monad_facts.
Context {Ext : Type} `{Collaborators Ext}.

Lemma bind_inv {A B} (m : M Ext A) (f : A -> M Ext B) w res w' :
  bind m f w = (res, w') ->
  (exists a w1, m w = (Ok a, w1) /\ f a w1 = (res, w'))
  \/ (exists e, m w = (Raise e, w') /\ res = Raise e).
Proof.
  unfold bind. destruct (m w) as [[a|e] w1]; intros Heq.
  - left. eauto.
  - right. inversion Heq; subst. eauto.
Qed.

Lemma emitted_app {A} (m : M Ext A) w evs :
  trace (after m w) = (trace w ++ evs)%list -> emitted m w = evs.
Proof. unfold emitted. intros ->. apply drop_app_length. Qed.

Lemma run_eq {A} (m : M Ext A) w : m w = (result m w, after m w).
Proof. unfold result, after. by destruct (m w). Qed.

End Monad_facts.

(** Splits a run of [bind] in a hypothesis into its two cases. *)
Ltac bind_cases Hrun :=
  let a := fresh "a" in
  let w1 := fresh "w" in
  let e := fresh "e" in
  let H1 := fresh "Hm" in
  let H2 := fresh "Hk" in
  apply bind_inv in Hrun as [(a & w1 & H1 & H2) | (e & H1 & H2)].

Section Responder_facts.
Context {Ext : Type} `{Collaborators Ext}.

Lemma respond_loop_sound (self : ResponderWithRetries) attempts :
  forall state history last (w : World Ext) res w',
    heap w !! state = Some history ->
    respond_loop self attempts state last w = (res, w') ->
    exists events,
      trace w' = (trace w ++ events)%list
      /\ respond_run self history attempts last events res.
Proof.
  induction attempts as [|attempt rest IH]; intros state history last w res w' Hl Hrun.
  - exists []. rewrite app_nil_r. simpl in Hrun.
    destruct last; inversion Hrun; subst; split; auto; constructor.
  - simpl in Hrun. unfold invoke_chain, bind at 1 2, deref in Hrun.
    rewrite Hl in Hrun. unfold call in Hrun. simpl in Hrun.
    destruct (chain_invoke (runnable self) history [attempt_tag attempt] (ext w))
      as [[r|e] s'] eqn:Hcall.
    + destruct (v_invoke (validator self) r) as [[]|e] eqn:Hv.
      * inversion Hrun; subst. eexists. split; [reflexivity|]. by constructor.
      * destruct e;
          try (inversion Hrun; subst; eexists; split; [reflexivity|];
               eapply run_other; [eassumption | congruence]).
        destruct (tool_calls r) as [|tc tcs] eqn:Htc.
        -- inversion Hrun; subst. eexists. split; [reflexivity|].
           eapply run_no_call; eauto.
        -- unfold bind at 1, lift, py_index in Hrun.
           simpl in Hrun. unfold list_add, bind at 1 2, deref in Hrun.
           simpl in Hrun. rewrite Hl in Hrun. simpl in Hrun.
           eapply IH in Hrun as (events & Htr & Hr).
           ++ simpl in Htr. eexists. split.
              ** rewrite Htr, <- app_assoc. reflexivity.
              ** eapply run_retry; eauto.
           ++ simpl. rewrite lookup_app_r by lia.
              by rewrite Nat.sub_diag.
    + inversion Hrun; subst. eexists. split; [reflexivity|]. constructor.
Qed.

Lemma respond_sound (self : ResponderWithRetries) state history (w : World Ext) :
  heap w !! state = Some history ->
  respond_run self history (seq 0 3) None
    (emitted (respond self state) w) (result (respond self state) w).
Proof.
  intros Hl. pose proof (run_eq (respond self state) w) as Hrun.
  unfold respond in Hrun at 1.
  eapply respond_loop_sound in Hrun as (events & Htr & Hr); [|done].
  by rewrite (emitted_app _ _ _ Htr).
Qed.

End Responder_facts.

Lemma forallb_cons_true {A} (f : A -> bool) x l :
  forallb f (x :: l) = true -> f x = true /\ forallb f l = true.
Proof. simpl. apply andb_prop. Qed.

Lemma forallb_lookup {A} (f : A -> bool) (l : list A) k x :
  forallb f l = true -> l !! k = Some x -> f x = true.
Proof.
  revert k. induction l as [|y l IH]; intros k Hall Hk; [by rewrite lookup_nil in Hk|].
  apply forallb_cons_true in Hall as [Hy Hl].
  destruct k as [|k]; simpl in Hk; [by inversion Hk; subst|eauto].
Qed.

Lemma forallb_false_lookup {A} (f : A -> bool) (l : list A) :
  forallb f l = false -> exists k x, l !! k = Some x /\ f x = false.
Proof.
  induction l as [|x l IH]; simpl; [discriminate|].
  destruct (f x) eqn:Hx; simpl.
  - intros (k & y & Hk & Hy)%IH. by exists (Datatypes.S k), y.
  - intros _. by exists 0%nat, x.
Qed.

Section Run_facts.
Variable self : ResponderWithRetries.

Lemma ev_response_ok messages tags r :
  ev_response (runnable self) (EvInvoke (runnable self) messages tags (Ok r)) = Some r.
Proof. simpl. by destruct (runnable self). Qed.

Lemma rejects_inv r :
  rejects (validator self) r = true ->
  exists repr_e, v_invoke (validator self) r = Raise (ValidationError repr_e).
Proof.
  unfold rejects. destruct (v_invoke (validator self) r) as [|[]]; try discriminate; eauto.
Qed.

Lemma run_length history attempts last events res :
  respond_run self history attempts last events res ->
  (length events <= length attempts)%nat.
Proof. induction 1; simpl; lia. Qed.

Lemma run_invokes history attempts last events res :
  respond_run self history attempts last events res ->
  Forall (is_invoke_of (runnable self)) events.
Proof.
  induction 1; repeat constructor; unfold is_invoke_of; eauto.
Qed.

(** A response that validates ends the run: it is the result and no call
    follows it. *)
Lemma run_valid_at history attempts last events res :
  respond_run self history attempts last events res ->
  forall k ev resp,
    events !! k = Some ev ->
    ev_response (runnable self) ev = Some resp ->
    v_invoke (validator self) resp = Ok tt ->
    res = Ok resp /\ length events = S k.
Proof.
  induction 1; intros k ev resp Hk Hev Hok.
  all: destruct k as [|k]; simpl in Hk; try discriminate.
  all: try (inversion Hk; subst ev; clear Hk).
  all: try (simpl in Hev; discriminate).
  all: try (rewrite ev_response_ok in Hev; inversion Hev; subst; clear Hev).
  all: try congruence.
  - auto.
  - simpl. edestruct IHrespond_run as [-> ->]; eauto.
Qed.

(** A rejected response without any invocation ends the run with
    [IndexError]. *)
Lemma run_no_call_at history attempts last events res :
  respond_run self history attempts last events res ->
  forall k ev resp,
    events !! k = Some ev ->
    ev_response (runnable self) ev = Some resp ->
    rejects (validator self) resp = true ->
    tool_calls resp = [] ->
    res = Raise IndexError /\ length events = S k.
Proof.
  induction 1; intros k ev resp Hk Hev Hrej Hnil.
  all: destruct k as [|k]; simpl in Hk; try discriminate.
  all: try (inversion Hk; subst ev; clear Hk).
  all: try (simpl in Hev; discriminate).
  all: try (rewrite ev_response_ok in Hev; inversion Hev; subst; clear Hev).
  all: try (apply rejects_inv in Hrej as [? Hrej]; congruence).
  - auto.
  - simpl. edestruct IHrespond_run as [-> ->]; eauto.
Qed.

Lemma rejected_with_call_inv messages tags out :
  attempt_rejected_with_call self (EvInvoke (runnable self) messages tags out) = true ->
  exists r repr_e tc tcs,
    out = Ok r
    /\ v_invoke (validator self) r = Raise (ValidationError repr_e)
    /\ tool_calls r = tc :: tcs.
Proof.
  unfold attempt_rejected_with_call. destruct out as [r|e].
  - rewrite ev_response_ok. intros [Hrej Hcall]%andb_prop.
    apply rejects_inv in Hrej as [repr_e Hv]. unfold has_call in Hcall.
    destruct (tool_calls r) as [|tc tcs] eqn:Htc; [discriminate|]. eauto 8.
  - simpl. destruct (runnable self); discriminate.
Qed.

(** When every response is rejected and carries an invocation, the three
    attempts are used and the response of the third is the result. *)
Lemma run_three_rejections history last events res :
  respond_run self history (seq 0 3) last events res ->
  forallb (attempt_rejected_with_call self) events = true ->
  exists r1 r2 r3 h2 h3,
    events = [EvInvoke (runnable self) history ["attempt:0"] (Ok r1);
              EvInvoke (runnable self) h2 ["attempt:1"] (Ok r2);
              EvInvoke (runnable self) h3 ["attempt:2"] (Ok r3)]
    /\ res = Ok r3.
Proof.
  simpl. intros Hrun Hall.
  inversion Hrun as [| | | | | |? ? ? ? r1 ? ? ? ev1 ? Hv1 Htc1 Hrun1]; subst;
    apply forallb_cons_true in Hall as [Hhd Hall];
    apply rejected_with_call_inv in Hhd as (? & ? & ? & ? & ? & ? & ?);
    try congruence.
  inversion Hrun1 as [| | | | | |? ? ? ? r2 ? ? ? ev2 ? Hv2 Htc2 Hrun2]; subst;
    apply forallb_cons_true in Hall as [Hhd Hall];
    apply rejected_with_call_inv in Hhd as (? & ? & ? & ? & ? & ? & ?);
    try congruence.
  inversion Hrun2 as [| | | | | |? ? ? ? r3 ? ? ? ev3 ? Hv3 Htc3 Hrun3]; subst;
    apply forallb_cons_true in Hall as [Hhd Hall];
    apply rejected_with_call_inv in Hhd as (? & ? & ? & ? & ? & ? & ?);
    try congruence.
  inversion Hrun3; subst. eauto 10.
Qed.

End Run_facts.

(** ** Every part of the program is orderly *)

Section Orderly.
Context {Ext : Type} `{Collaborators Ext}.

Lemma effects_none P T `{!Reflexive T} {A} (w : World Ext) (res : Res A) :
  effects_ok P T w res w [].
Proof.
  split; simpl; auto.
  - by rewrite app_nil_r.
  - exists []. by rewrite app_nil_r.
  - intros i ev e Hi. by rewrite lookup_nil in Hi.
Qed.

Lemma orderly_ret P T `{!Reflexive T} {A} (a : A) : orderly P T (ret a).
Proof. intros w res w' Heq. inversion Heq; subst. exists []. by apply effects_none. Qed.

Lemma orderly_raise P T `{!Reflexive T} {A} e : orderly P T (@raise Ext A e).
Proof. intros w res w' Heq. inversion Heq; subst. exists []. by apply effects_none. Qed.

Lemma orderly_lift P T `{!Reflexive T} {A} (r : Res A) : orderly P T (lift r).
Proof. intros w res w' Heq. inversion Heq; subst. exists []. by apply effects_none. Qed.

Lemma orderly_get_table P T `{!Reflexive T} : orderly P T get_table.
Proof. intros w res w' Heq. inversion Heq; subst. exists []. by apply effects_none. Qed.

Lemma orderly_deref P T `{!Reflexive T} l : orderly P T (deref l).
Proof.
  intros w res w' Heq. unfold deref in Heq.
  destruct (heap w !! l); inversion Heq; subst; exists []; by apply effects_none.
Qed.

Lemma orderly_alloc P T `{!Reflexive T} xs : orderly P T (alloc xs).
Proof.
  intros w res w' Heq. inversion Heq; subst. exists [].
  split; simpl; auto.
  - by rewrite app_nil_r.
  - eauto.
  - intros i ev e Hi. by rewrite lookup_nil in Hi.
Qed.

Lemma orderly_set_table P (T : Table -> Table -> Prop) t :
  (forall t0, T t0 t) -> orderly P T (set_table t).
Proof.
  intros HT w res w' Heq. inversion Heq; subst. exists [].
  split; simpl; auto.
  - by rewrite app_nil_r.
  - exists []. by rewrite app_nil_r.
  - intros i ev e Hi. by rewrite lookup_nil in Hi.
Qed.

Lemma orderly_emit (P : Event -> Prop) T `{!Reflexive T} ev :
  P ev -> ev_fault ev = None -> (forall s, advance s ev = s) ->
  orderly P T (emit ev).
Proof.
  intros HP Hf Hadv w res w' Heq. inversion Heq; subst. exists [ev].
  split; simpl; auto.
  - exists []. by rewrite app_nil_r.
  - intros [|i] ev' e Hi Hev; simpl in Hi; [|by rewrite lookup_nil in Hi].
    inversion Hi; subst. congruence.
Qed.

Lemma orderly_call (P : Event -> Prop) T `{!Reflexive T} {A}
    (f : Ext -> Res A * Ext) (ev : Res A -> Event) :
  (forall r, P (ev r)) ->
  (forall r e, ev_fault (ev r) = Some e -> r = Raise e) ->
  (forall r s, advance s (ev r) = snd (f s)) ->
  orderly P T (call f ev).
Proof.
  intros HP Hf Hadv w res w' Heq. unfold call in Heq.
  destruct (f (ext w)) as [r s'] eqn:Hcall. inversion Heq; subst.
  exists [ev res]. split; simpl; auto.
  - exists []. by rewrite app_nil_r.
  - by rewrite Hadv, Hcall.
  - intros [|i] ev' e Hi Hev; simpl in Hi; [|by rewrite lookup_nil in Hi].
    inversion Hi; subst. apply Hf in Hev. by subst.
Qed.

Lemma orderly_bind P T `{!Transitive T} {A B} (m : M Ext A) (f : A -> M Ext B) :
  orderly P T m -> (forall a, orderly P T (f a)) -> orderly P T (bind m f).
Proof.
  intros Hm Hf w res w' Hrun. bind_cases Hrun.
  - apply Hm in Hm0 as [evs1 [Ht1 He1 [hs1 Hh1] HT1 Hx1 Hf1]].
    apply Hf in Hk as [evs2 [Ht2 He2 [hs2 Hh2] HT2 Hx2 Hf2]].
    exists (evs1 ++ evs2)%list. split.
    + by rewrite Ht2, Ht1, app_assoc.
    + by apply Forall_app.
    + exists (hs1 ++ hs2)%list. by rewrite Hh2, Hh1, app_assoc.
    + by etrans.
    + by rewrite foldl_app, <- Hx1.
    + intros i ev e Hi Hev. apply lookup_app_Some in Hi as [Hi|[Hge Hi]].
      * destruct (Hf1 _ _ _ Hi Hev) as [Hr _]. discriminate.
      * destruct (Hf2 _ _ _ Hi Hev) as [Hr Hlen]. split; [done|].
        rewrite length_app, Hlen. lia.
  - subst res. apply Hm in Hm0 as [evs1 [Ht1 He1 Hh1 HT1 Hx1 Hf1]].
    exists evs1. by split.
Qed.

Lemma orderly_weaken (P Q : Event -> Prop) (T U : Table -> Table -> Prop) {A}
    (m : M Ext A) :
  (forall ev, P ev -> Q ev) -> (forall t t', T t t' -> U t t') ->
  orderly P T m -> orderly Q U m.
Proof.
  intros HPQ HTU Hm w res w' Hrun.
  apply Hm in Hrun as [evs [Ht He Hh HT Hx Hf]]. exists evs. split; auto.
  eapply Forall_impl; eauto.
Qed.

End Orderly.

(** One step of a proof that a computation is orderly. *)
Ltac orderly_step :=
  first
    [ apply orderly_ret; try apply _
    | apply orderly_raise; try apply _
    | apply orderly_lift; try apply _
    | apply orderly_deref; try apply _
    | apply orderly_alloc; try apply _
    | apply orderly_get_table; try apply _
    | apply orderly_bind; try apply _; [ | intros ?] ].

(** A call on a collaborator is orderly. *)
Ltac orderly_call :=
  apply orderly_call;
    [ try apply _ | intros; exact I | intros [?|?] ?; simpl; congruence | reflexivity ].

Section Responder_effects.
Context {Ext : Type} `{Collaborators Ext}.

Lemma orderly_invoke_chain T `{!Reflexive T, !Transitive T} c state tags :
  orderly (is_invoke_of c) T (invoke_chain c state tags).
Proof.
  unfold invoke_chain. orderly_step; [orderly_step|].
  apply orderly_call; try apply _.
  - intros r. unfold is_invoke_of. eauto.
  - intros [r|e] e'; simpl; congruence.
  - reflexivity.
Qed.

Lemma orderly_list_add P T `{!Reflexive T, !Transitive T} l extra :
  orderly P T (list_add l extra).
Proof. unfold list_add. repeat orderly_step. Qed.

Lemma orderly_respond_loop T `{!Reflexive T, !Transitive T} self attempts :
  forall state last,
    orderly (is_invoke_of (runnable self)) T (respond_loop self attempts state last).
Proof.
  induction attempts as [|attempt rest IH]; intros state last; simpl.
  - destruct last; orderly_step.
  - orderly_step; [apply orderly_invoke_chain; apply _|].
    destruct (v_invoke (validator self) a) as [|[]];
      try (apply orderly_ret; apply _); try (apply orderly_raise; apply _).
    orderly_step; [orderly_step|].
    orderly_step; [apply orderly_list_add; apply _|].
    apply IH.
Qed.

Lemma orderly_respond T `{!Reflexive T, !Transitive T} self state :
  orderly (is_invoke_of (runnable self)) T (respond self state).
Proof. apply orderly_respond_loop; apply _. Qed.

End Responder_effects.

(** ** Claims on ResponderWithRetries *)

Section Responder_claims.
Context {Ext : Type} `{Collaborators Ext}.

(** C1.  Take a run of [respond] in which the response of every invocation
    is rejected by the validator, as the claim supposes.  Either every one
    of these responses carries a tool invocation, and [respond] invokes the
    chain three times (attempts 0, 1 and 2, the first on the caller's
    history) and returns the third response; or the response of the last
    invocation made, one of the three, carries none, and [respond] raises
    [IndexError] right there instead of retrying or returning: the handler
    reads [response.tool_calls[0]] to correlate its corrective message.
    With a validator that rejects no response without invocation, the first
    case is the only one. *)
Theorem respond_gives_up_only_when_rejections_carry_a_call
    (self : ResponderWithRetries) (state : loc) (history : list Message) (w : World Ext) :
  heap w !! state = Some history ->
  forallb (attempt_rejected self) (emitted (respond self state) w) = true ->
  ((forallb (attempt_rejected_with_call self) (emitted (respond self state) w) = true
    /\ exists r1 r2 r3 h2 h3,
         emitted (respond self state) w =
           [EvInvoke (runnable self) history ["attempt:0"] (Ok r1);
            EvInvoke (runnable self) h2 ["attempt:1"] (Ok r2);
            EvInvoke (runnable self) h3 ["attempt:2"] (Ok r3)]
         /\ result (respond self state) w = Ok r3)
   \/ (exists k messages tags r,
         emitted (respond self state) w !! k
         = Some (EvInvoke (runnable self) messages tags (Ok r))
         /\ tool_calls r = []
         /\ length (emitted (respond self state) w) = Datatypes.S k
         /\ (k < 3)%nat
         /\ result (respond self state) w = Raise IndexError))
  /\ ((forall r, rejects (validator self) r = true -> has_call r = true) ->
      length (emitted (respond self state) w) = 3%nat
      /\ is_ok (result (respond self state) w) = true).
Proof.
  intros Hl Hall. pose proof (respond_sound self state history w Hl) as Hrun.
  assert (Hcases :
    forallb (attempt_rejected_with_call self) (emitted (respond self state) w) = true
    \/ exists k messages tags r,
         emitted (respond self state) w !! k
         = Some (EvInvoke (runnable self) messages tags (Ok r))
         /\ rejects (validator self) r = true
         /\ tool_calls r = []).
  { destruct (forallb (attempt_rejected_with_call self) (emitted (respond self state) w))
      eqn:Hcalls; [by left|right].
    apply forallb_false_lookup in Hcalls as (k & ev & Hk & Hev).
    pose proof (run_invokes self _ _ _ _ _ Hrun) as Hinv.
    rewrite Forall_lookup in Hinv. destruct (Hinv k ev Hk) as (ms & tags & out & ->).
    assert (Hrej : attempt_rejected self (EvInvoke (runnable self) ms tags out) = true).
    { by apply (forallb_lookup _ _ k _ Hall). }
    unfold attempt_rejected in Hrej. unfold attempt_rejected_with_call in Hev.
    destruct out as [r|e]; [|simpl in Hrej; by destruct (runnable self)].
    rewrite ev_response_ok in Hrej, Hev. rewrite Hrej in Hev. simpl in Hev.
    exists k, ms, tags, r. split; [done|]. split; [done|].
    unfold has_call in Hev. by destruct (tool_calls r). }
  split.
  - destruct Hcases as [Hcalls|(k & ms & tags & r & Hk & Hrej & Hnil)].
    + left. split; [done|]. by apply (run_three_rejections self _ _ _ _ Hrun).
    + right. exists k, ms, tags, r.
      destruct (run_no_call_at self _ _ _ _ _ Hrun k _ r Hk (ev_response_ok self ms tags r)
                  Hrej Hnil) as [Hres Hlen].
      split; [done|]. split; [done|]. split; [done|]. split; [|done].
      apply (run_length self) in Hrun. simpl in Hrun. lia.
  - intros Hparser. destruct Hcases as [Hcalls|(k & ms & tags & r & Hk & Hrej & Hnil)].
    + destruct (run_three_rejections self _ _ _ _ Hrun Hcalls)
        as (r1 & r2 & r3 & h2 & h3 & -> & ->). done.
    + apply Hparser in Hrej. unfold has_call in Hrej. by rewrite Hnil in Hrej.
Qed.

(** C7.  When the response of the k-th invocation made by [respond]
    (k = 1, 2, 3; index k-1 in the calls of the run) validates, [respond]
    returns that very response, exactly k invocations are made and none
    follows. *)
Theorem respond_returns_first_valid_response
    (self : ResponderWithRetries) (state : loc) (history : list Message) (w : World Ext)
    (k : nat) (ev : Event) (r : AIMsg) :
  heap w !! state = Some history ->
  emitted (respond self state) w !! k = Some ev ->
  ev_response (runnable self) ev = Some r ->
  v_invoke (validator self) r = Ok tt ->
  result (respond self state) w = Ok r
  /\ length (emitted (respond self state) w) = Datatypes.S k
  /\ (k < 3)%nat
  /\ Forall (is_invoke_of (runnable self)) (emitted (respond self state) w).
Proof.
  intros Hl Hk Hev Hok. pose proof (respond_sound self state history w Hl) as Hrun.
  destruct (run_valid_at self _ _ _ _ _ Hrun k ev r Hk Hev Hok) as [Hres Hlen].
  split; [done|]. split; [done|]. split.
  - apply run_length in Hrun. simpl in Hrun. lia.
  - by eapply run_invokes.
Qed.

(** C9.  [respond] leaves every list object that exists when it is called,
    the caller's history among them, as it is (the corrective messages go
    to new lists); it records nothing but invocations of its chain, the
    collaborators move only through these invocations, and the table is
    untouched. *)
Theorem respond_leaves_its_input_unchanged
    (self : ResponderWithRetries) (state : loc) (w : World Ext) :
  (forall l xs, heap w !! l = Some xs -> heap (after (respond self state) w) !! l = Some xs)
  /\ trace (after (respond self state) w) = (trace w ++ emitted (respond self state) w)%list
  /\ Forall (is_invoke_of (runnable self)) (emitted (respond self state) w)
  /\ ext (after (respond self state) w) = foldl advance (ext w) (emitted (respond self state) w)
  /\ hypothesisdf_all (after (respond self state) w) = hypothesisdf_all w.
Proof.
  destruct (orderly_respond eq self state w _ _ (run_eq _ w))
    as [evs [Ht He [hs Hh] HT Hx Hf]].
  rewrite (emitted_app _ _ _ Ht). repeat split; auto.
  intros l xs Hl. rewrite Hh. by apply lookup_app_l_Some.
Qed.

(** C10.  A response that the validator rejects and that carries no tool
    invocation makes [respond] raise [IndexError] at that attempt, whichever
    attempt it is; the give-up after three attempts holds when every
    rejected response carries an invocation. *)
Theorem respond_raises_on_rejected_response_without_call
    (self : ResponderWithRetries) (state : loc) (history : list Message) (w : World Ext) :
  heap w !! state = Some history ->
  (forall k ev r,
      emitted (respond self state) w !! k = Some ev ->
      ev_response (runnable self) ev = Some r ->
      rejects (validator self) r = true ->
      tool_calls r = [] ->
      result (respond self state) w = Raise IndexError
      /\ length (emitted (respond self state) w) = Datatypes.S k)
  /\ (forallb (attempt_rejected_with_call self) (emitted (respond self state) w) = true ->
      is_ok (result (respond self state) w) = true
      /\ length (emitted (respond self state) w) = 3%nat).
Proof.
  intros Hl. pose proof (respond_sound self state history w Hl) as Hrun. split.
  - intros k ev r. by eapply run_no_call_at.
  - intros Hall.
    destruct (run_three_rejections self _ _ _ _ Hrun Hall)
      as (r1 & r2 & r3 & h2 & h3 & -> & ->). done.
Qed.

End Responder_claims.

(** C1, at a concrete run: the endpoint answers every attempt with plain
    text, which the validator of the responder rejects; there is one
    invocation, not three, and [respond] raises. *)
Lemma respond_gives_up_only_when_rejections_carry_a_call_witness :
  emitted (respond Stub.responder 0%nat) Stub.bare_always
  = [EvInvoke initial_answer_chain Stub.hi ["attempt:0"] (Ok Stub.bare)]
  /\ result (respond Stub.responder 0%nat) Stub.bare_always = Raise IndexError.
Proof.
  split; [vm_compute; reflexivity|].
  assert (Hall : forallb (attempt_rejected Stub.responder)
                   (emitted (respond Stub.responder 0%nat) Stub.bare_always) = true)
    by (vm_compute; reflexivity).
  destruct (proj1 (respond_gives_up_only_when_rejections_carry_a_call
                     Stub.responder 0%nat Stub.hi Stub.bare_always eq_refl Hall))
    as [[Hcalls _]|(k & messages & tags & r & _ & _ & _ & _ & Hres)].
  - vm_compute in Hcalls. discriminate.
  - exact Hres.
Defined.

(** C7, at a concrete run: the second response validates. *)
Lemma respond_returns_first_valid_response_witness :
  result (respond Stub.responder 0%nat) Stub.rejected_then_valid = Ok (Stub.good "B")
  /\ length (emitted (respond Stub.responder 0%nat) Stub.rejected_then_valid) = 2%nat
  /\ (1 < 3)%nat
  /\ Forall (is_invoke_of initial_answer_chain)
       (emitted (respond Stub.responder 0%nat) Stub.rejected_then_valid).
Proof.
  eapply (respond_returns_first_valid_response
            Stub.responder 0%nat Stub.hi Stub.rejected_then_valid 1%nat);
    [reflexivity | vm_compute; reflexivity | reflexivity | reflexivity].
Defined.

(** C9, at a concrete run with a retry: the caller's list is as before. *)
Lemma respond_leaves_its_input_unchanged_witness :
  heap (after (respond Stub.responder 0%nat) Stub.rejected_then_valid) !! 0%nat
  = Some Stub.hi.
Proof.
  apply (proj1 (respond_leaves_its_input_unchanged
                  Stub.responder 0%nat Stub.rejected_then_valid)).
  reflexivity.
Defined.

(** C10, at a concrete run: the first response is rejected and bare. *)
Lemma respond_raises_on_rejected_response_without_call_witness :
  result (respond Stub.responder 0%nat) Stub.bare_first = Raise IndexError
  /\ length (emitted (respond Stub.responder 0%nat) Stub.bare_first) = 1%nat.
Proof.
  eapply (proj1 (respond_raises_on_rejected_response_without_call
                   Stub.responder 0%nat Stub.hi Stub.bare_first eq_refl) 0%nat);
    [vm_compute; reflexivity | reflexivity | reflexivity | reflexivity].
Defined.

(** ** The termination test of the graph *)

Section Event_loop.

Lemma not_tool_or_ai_false m : not_tool_or_ai m = false <-> ai_or_tool m.
Proof.
  unfold ai_or_tool. destruct m; simpl; split; intros Hm; auto;
    try discriminate; destruct Hm; discriminate.
Qed.

Lemma not_tool_or_ai_true m : not_tool_or_ai m = true <-> ~ ai_or_tool m.
Proof.
  rewrite <- not_tool_or_ai_false. destruct (not_tool_or_ai m); split; congruence.
Qed.

(** The loop counts the messages of the longest prefix of roles [ai] and
    [tool] of the list it scans. *)
Lemma count_until_break_run (run rest : list Message) :
  Forall ai_or_tool run ->
  match rest with [] => True | m :: _ => ~ ai_or_tool m end ->
  forall i, count_until_break (run ++ rest) i = (i + length run)%nat.
Proof.
  intros Hrun Hrest. induction Hrun as [|m run Hm Hrun IH]; intros i; simpl.
  - destruct rest as [|m rest]; simpl; [lia|].
    apply not_tool_or_ai_true in Hrest. rewrite Hrest. lia.
  - apply not_tool_or_ai_false in Hm. rewrite Hm, IH. lia.
Qed.

Lemma get_num_iterations_run (pre run : list Message) :
  Forall ai_or_tool run ->
  match last pre with None => True | Some m => ~ ai_or_tool m end ->
  _get_num_iterations (pre ++ run) = length run.
Proof.
  intros Hrun Hpre. unfold _get_num_iterations. rewrite rev_app_distr.
  rewrite count_until_break_run.
  - by rewrite length_rev.
  - by apply Forall_rev.
  - destruct pre as [|m pre _] using rev_ind; [done|].
    rewrite rev_app_distr. simpl. by rewrite last_snoc in Hpre.
Qed.

(** Every history splits into its trailing messages of role [ai] or [tool]
    and what comes before them. *)
Lemma trailing_run_exists (state : list Message) :
  exists pre run,
    state = (pre ++ run)%list
    /\ Forall ai_or_tool run
    /\ match last pre with None => True | Some m => ~ ai_or_tool m end.
Proof.
  induction state as [|m state (pre & run & -> & Hrun & Hpre)] using rev_ind.
  - exists [], []. by repeat split.
  - destruct (not_tool_or_ai m) eqn:Hm.
    + exists ((pre ++ run) ++ [m])%list, []. rewrite app_nil_r.
      split; [done|]. split; [done|]. rewrite last_snoc.
      by apply not_tool_or_ai_true.
    + exists pre, (run ++ [m])%list. rewrite app_assoc. split; [done|].
      split; [|done]. apply Forall_app. split; [done|].
      constructor; [|done]. by apply not_tool_or_ai_false.
Qed.

(** C2.  Every history is some [pre ++ run] whose messages [run] all have
    role [ai] or [tool] and whose part [pre] before them is empty or ends
    with a message of another role; for such a history the count is the
    length of [run], and the transition out of revise is to the end exactly
    when this length is strictly greater than [agent_iterations], to
    execute_tools otherwise: a run of exactly [agent_iterations] continues,
    a run of one more ends. *)
Theorem revise_ends_iff_trailing_run_exceeds_agent_iterations
    (self : HypothesisGenerator) (pre run : list Message) :
  Forall ai_or_tool run ->
  match last pre with None => True | Some m => ~ ai_or_tool m end ->
  _get_num_iterations (pre ++ run) = length run
  /\ (event_loop self (pre ++ run) = END
      <-> agent_iterations self < Z.of_nat (length run))
  /\ (event_loop self (pre ++ run) = "execute_tools"
      <-> Z.of_nat (length run) <= agent_iterations self)
  /\ (next_node self revise (pre ++ run) = None
      <-> agent_iterations self < Z.of_nat (length run))
  /\ (next_node self revise (pre ++ run) = Some execute_tools
      <-> Z.of_nat (length run) <= agent_iterations self)
  /\ (Z.of_nat (length run) = agent_iterations self ->
      next_node self revise (pre ++ run) = Some execute_tools)
  /\ (Z.of_nat (length run) = agent_iterations self + 1 ->
      next_node self revise (pre ++ run) = None)
  /\ (forall state : list Message,
        exists pre' run',
          state = (pre' ++ run')%list
          /\ Forall ai_or_tool run'
          /\ match last pre' with None => True | Some m => ~ ai_or_tool m end).
Proof.
  intros Hrun Hpre. pose proof (get_num_iterations_run pre run Hrun Hpre) as Hn.
  assert (Hcases :
    (agent_iterations self < Z.of_nat (length run)
     /\ event_loop self (pre ++ run) = END)
    \/ (Z.of_nat (length run) <= agent_iterations self
        /\ event_loop self (pre ++ run) = "execute_tools")).
  { unfold event_loop. rewrite Hn.
    destruct (Z.gtb_spec (Z.of_nat (length run)) (agent_iterations self)); [left|right];
      split; auto; lia. }
  split; [done|].
  unfold next_node.
  destruct Hcases as [[Hlt ->]|[Hle ->]]; simpl;
    repeat split; intros; try done; try lia; apply trailing_run_exists.
Qed.

End Event_loop.

(** C2, at concrete histories: with [agent_iterations = 3], a trailing run of
    three messages continues and a run of four ends. *)
Lemma revise_ends_iff_trailing_run_exceeds_agent_iterations_witness :
  next_node (Stub.generator 3 1) revise
    ([HumanMessage "seed"]
     ++ [AIMessage (Stub.good "A"); ToolMessage "r" "call_1"; AIMessage (Stub.good "B")])
  = Some execute_tools
  /\ next_node (Stub.generator 3 1) revise
       ([HumanMessage "seed"]
        ++ [AIMessage (Stub.good "A"); ToolMessage "r" "call_1"; AIMessage (Stub.good "B");
            ToolMessage "r" "call_1"])
     = None.
Proof.
  split.
  - apply (revise_ends_iff_trailing_run_exceeds_agent_iterations (Stub.generator 3 1)
             [HumanMessage "seed"]
             [AIMessage (Stub.good "A"); ToolMessage "r" "call_1"; AIMessage (Stub.good "B")]).
    + repeat (constructor; [first [by left | by right]|]). constructor.
    + simpl. intros [Hm|Hm]; discriminate.
    + simpl. lia.
  - apply (revise_ends_iff_trailing_run_exceeds_agent_iterations (Stub.generator 3 1)
             [HumanMessage "seed"]
             [AIMessage (Stub.good "A"); ToolMessage "r" "call_1"; AIMessage (Stub.good "B");
              ToolMessage "r" "call_1"]).
    + repeat (constructor; [first [by left | by right]|]). constructor.
    + simpl. intros [Hm|Hm]; discriminate.
    + simpl. lia.
Defined.

(** ** The tool execution stage *)

Section Run_queries.
Context {Ext : Type} `{Collaborators Ext}.

Lemma collect_ok {A} (outs : list (Res A)) xs :
  collect outs = Ok xs -> outs = map Ok xs.
Proof.
  revert xs. induction outs as [|[a|e] outs IH]; intros xs; simpl.
  - intros Heq. by inversion Heq.
  - destruct (collect outs) as [ys|e]; [|discriminate].
    intros Heq. inversion Heq; subst. simpl. f_equal. by apply IH.
  - discriminate.
Qed.

Lemma answers_all_ok s queries xs :
  collect (answers_in_order s queries) = Ok xs -> length xs = length queries.
Proof.
  revert s xs. induction queries as [|q rest IH]; intros s xs; simpl.
  - intros Heq. by inversion Heq.
  - destruct (retrieval_chain "" q s) as [[r|e] s']; simpl; [|discriminate].
    destruct (collect (answers_in_order s' rest)) as [ys|e] eqn:Hc; [|discriminate].
    intros Heq. inversion Heq; subst. simpl. f_equal. by eapply IH.
Qed.

Lemma run_queries_from_sound search_queries :
  forall results (w : World Ext) res w',
    run_queries_from results search_queries w = (res, w') ->
    trace w' = (trace w ++ zip_with (EvRetrievalChain "") search_queries
                             (answers_in_order (ext w) search_queries))%list
    /\ res = match collect (answers_in_order (ext w) search_queries) with
             | Ok xs => Ok (results ++ xs)%list
             | Raise e => Raise e
             end.
Proof.
  induction search_queries as [|query rest IH]; intros results w res w' Hrun; simpl in *.
  - inversion Hrun; subst. by rewrite !app_nil_r.
  - unfold bind, call in Hrun.
    destruct (retrieval_chain "" query (ext w)) as [[r|e] s'] eqn:Hcall; simpl in *.
    + apply IH in Hrun as [Htr Hres]. simpl in *. split.
      * by rewrite Htr, <- app_assoc.
      * rewrite Hres. destruct (collect (answers_in_order s' rest)); [|done].
        by rewrite <- app_assoc.
    + inversion Hrun; subst. simpl. by rewrite zip_with_nil_r.
Qed.

Lemma orderly_run_queries_from T `{!Reflexive T, !Transitive T} search_queries :
  forall results, orderly not_stream T (run_queries_from results search_queries).
Proof.
  induction search_queries as [|query rest IH]; intros results; simpl.
  - orderly_step.
  - orderly_step; [|apply IH]. orderly_call.
Qed.

(** C8.  [run_queries] asks the retriever the queries of the list one after
    the other, in the order of the list and each of them, also when a query
    repeats; when it returns, the results are as many as the queries and
    the i-th is the retriever's answer to the i-th; an exception of the
    retriever at a query is the outcome of [run_queries], and no later
    query is asked. *)
Theorem run_queries_in_order_and_errors_propagate
    (search_queries : list string) (w : World Ext) :
  emitted (run_queries search_queries) w
  = zip_with (EvRetrievalChain "") search_queries
      (answers_in_order (ext w) search_queries)
  /\ result (run_queries search_queries) w
     = collect (answers_in_order (ext w) search_queries)
  /\ (forall results,
        result (run_queries search_queries) w = Ok results ->
        length results = length search_queries
        /\ length (emitted (run_queries search_queries) w) = length search_queries
        /\ forall i q, search_queries !! i = Some q ->
             exists r, results !! i = Some r
               /\ emitted (run_queries search_queries) w !! i
                  = Some (EvRetrievalChain "" q (Ok r)))
  /\ (forall i ev e,
        emitted (run_queries search_queries) w !! i = Some ev ->
        ev_fault ev = Some e ->
        result (run_queries search_queries) w = Raise e
        /\ length (emitted (run_queries search_queries) w) = Datatypes.S i).
Proof.
  pose proof (run_eq (run_queries search_queries) w) as Hrun.
  pose proof Hrun as Hord.
  apply (orderly_run_queries_from eq) in Hord as [evs [Ht _ _ _ _ Hf]].
  apply run_queries_from_sound in Hrun as [Htr Hres].
  rewrite (emitted_app _ _ _ Htr).
  rewrite Htr in Ht. apply app_inv_head in Ht. subst evs.
  assert (Hres' : result (run_queries search_queries) w
                  = collect (answers_in_order (ext w) search_queries)).
  { rewrite Hres. by destruct (collect _). }
  split; [done|]. split; [done|]. split.
  - intros results Hok. rewrite Hres' in Hok.
    pose proof (answers_all_ok _ _ _ Hok) as Hlen.
    apply collect_ok in Hok. rewrite Hok.
    split; [done|]. split.
    + rewrite length_zip_with, length_map. lia.
    + intros i q Hq.
      destruct (lookup_lt_is_Some_2 results i) as [r Hr].
      { rewrite Hlen. by eapply lookup_lt_Some. }
      exists r. split; [done|].
      rewrite lookup_zip_with, Hq. simpl. by rewrite list_lookup_fmap, Hr.
  - intros i ev e Hi Hev. destruct (Hf i ev e Hi Hev) as [Hr Hlen].
    split; [|done]. by destruct (result _ w); inversion Hr.
Qed.

End Run_queries.

(** C8, at concrete runs: a repeated query is asked again, and a failure at
    the second query ends the run after two calls. *)
Lemma run_queries_in_order_and_errors_propagate_witness :
  length (emitted (run_queries ["q1"; "q1"; "q2"]) (Stub.world [] [])) = 3%nat
  /\ result (run_queries ["q1"; "boom"; "q2"]) (Stub.world [] [])
     = Raise (Fault "retriever")
  /\ length (emitted (run_queries ["q1"; "boom"; "q2"]) (Stub.world [] [])) = 2%nat.
Proof.
  split.
  - destruct (run_queries_in_order_and_errors_propagate
                ["q1"; "q1"; "q2"] (Stub.world [] [])) as (_ & _ & Hok & _).
    destruct (Hok _ eq_refl) as (_ & Hlen & _). exact Hlen.
  - destruct (run_queries_in_order_and_errors_propagate
                ["q1"; "boom"; "q2"] (Stub.world [] [])) as (_ & _ & _ & Hfault).
    exact (Hfault 1%nat _ (Fault "retriever") eq_refl eq_refl).
Defined.

(** Closes a case in which the loop body has raised. *)
Ltac aborted Hk Htr Htab :=
  inversion Hk; subst; right; do 2 eexists;
  split; [reflexivity|]; simpl; split; [exact Htab|]; split;
  [ rewrite Htr, <- ?app_assoc; simpl; reflexivity
  | repeat (apply Forall_app; split); auto; repeat constructor ].

(** ** The graph and the outer loop are orderly *)

Section Graph_effects.
Context {Ext : Type} `{Collaborators Ext}.

Lemma orderly_respond_graph T `{!Reflexive T, !Transitive T} self state :
  orderly not_stream T (respond self state).
Proof.
  eapply orderly_weaken; [| |apply (orderly_respond T)]; [|done].
  by intros ev (ms & tags & out & ->).
Qed.

Lemma orderly_run_one T `{!Reflexive T, !Transitive T} tc :
  orderly not_stream T (run_one tc).
Proof.
  unfold run_one, tools_by_name. simpl.
  repeat (case_match; try (apply orderly_raise; apply _)).
  all: simplify_eq.
  all: orderly_step; [orderly_step|].
  all: orderly_step; [apply orderly_run_queries_from; apply _|orderly_step].
Qed.

Lemma orderly_run_all T `{!Reflexive T, !Transitive T} tcs :
  orderly not_stream T (run_all tcs).
Proof.
  induction tcs as [|tc rest IH]; simpl; [orderly_step|].
  orderly_step; [apply orderly_run_one; apply _|].
  orderly_step; [apply IH|orderly_step].
Qed.

Lemma orderly_tool_node T `{!Reflexive T, !Transitive T} state :
  orderly not_stream T (tool_node state).
Proof.
  unfold tool_node. orderly_step; [orderly_step|].
  destruct a; try orderly_step. apply orderly_run_all; apply _.
Qed.

Lemma orderly_run_node T `{!Reflexive T, !Transitive T} self n state :
  orderly not_stream T (run_node self n state).
Proof.
  destruct n; simpl.
  - orderly_step; [orderly_step|].
    orderly_step; [apply orderly_respond_graph; apply _|orderly_step].
  - apply orderly_tool_node; apply _.
  - orderly_step; [orderly_step|].
    orderly_step; [apply orderly_respond_graph; apply _|orderly_step].
Qed.

Lemma orderly_write_last T `{!Reflexive T, !Transitive T} step :
  orderly not_stream T (write_last step).
Proof.
  unfold write_last. orderly_step; [orderly_step|].
  apply orderly_emit; try apply _; done.
Qed.

Lemma orderly_graph_steps T `{!Reflexive T, !Transitive T} self fuel :
  forall n state, orderly not_stream T (graph_steps self write_last fuel n state).
Proof.
  induction fuel as [|fuel IH]; intros n state; simpl; [orderly_step|].
  orderly_step; [apply orderly_run_node; apply _|].
  orderly_step; [apply orderly_write_last; apply _|].
  destruct (next_node self n (state ++ a)); [apply IH|orderly_step].
Qed.

Lemma orderly_llm_short_chain T `{!Reflexive T, !Transitive T} prompt input :
  orderly not_stream T (llm_short_chain prompt input).
Proof.
  unfold llm_short_chain. orderly_step; [orderly_step|].
  orderly_step; [orderly_call|orderly_step].
Qed.

Lemma graph_stream_inv self input (w : World Ext) res w' :
  graph_stream self input write_last w = (res, w') ->
  exists events,
    trace w' = (trace w ++ EvGraphStream input :: events)%list
    /\ Forall not_stream events
    /\ hypothesisdf_all w' = hypothesisdf_all w
    /\ (forall i ev e, events !! i = Some ev -> ev_fault ev = Some e ->
          raised res = Some e /\ length events = Datatypes.S i).
Proof.
  unfold graph_stream. intros Hrun.
  unfold bind at 1, emit in Hrun.
  assert (Hord : orderly not_stream eq
            (write_last input ;;; graph_steps self write_last (recursion_limit self) draft input)).
  { orderly_step; [apply orderly_write_last; apply _|].
    apply orderly_graph_steps; apply _. }
  apply Hord in Hrun as [evs [Ht He _ HT _ Hf]]. simpl in *.
  exists evs. rewrite Ht, <- app_assoc. auto.
Qed.

Lemma append_nil_r (s : string) : s +:+ "" = s.
Proof.
  induction s as [|c s IH]; [reflexivity|].
  change (String c (s +:+ "") = String c s). by f_equal.
Qed.

Lemma py_str_add_ok s x t :
  py_str_add s x = Ok t -> exists u, x = JStr u /\ t = s +:+ u.
Proof. destruct x; simpl; intros Heq; inversion Heq; eauto. Qed.

Local Arguments py_str_add : simpl never.
Local Arguments final_reflection : simpl never.
Local Arguments final_answer : simpl never.
Local Arguments DataFrame : simpl never.

Lemma hypothesis_cycle_inv self acc (w : World Ext) res w' :
  hypothesis_cycle self acc w = (res, w') ->
  cycle_completed self acc w w' res \/ cycle_aborted acc w w' res.
Proof.
  unfold hypothesis_cycle. intros Hrun. bind_cases Hrun.
  2:{ apply graph_stream_inv in Hm as (gevs & Htr & Hns & Htab & _).
      subst res. right. by exists e, gevs. }
  pose proof Hm as Hgraph.
  apply graph_stream_inv in Hm as (gevs & Htr & Hns & Htab & _).
  rename a into step.
  unfold llm_short_chain in Hk.
  unfold bind, lift, call, concat_row, ret in Hk. simpl in Hk.
  rewrite !append_nil_r in Hk.
  destruct (rails_from_path "config" (ext w0)) as [[[]|e] s1] eqn:Hrails;
    simpl in Hk; [|aborted Hk Htr Htab].
  destruct (final_reflection step "shortname") as [shortname|e] eqn:Hsn;
    [|aborted Hk Htr Htab].
  destruct (similarity_search shortname s1) as [[docs|e] s2] eqn:Hsearch;
    simpl in Hk; [|aborted Hk Htr Htab].
  destruct (py_str_add _ shortname) as [sys|e] eqn:Hsys; [|aborted Hk Htr Htab].
  apply py_str_add_ok in Hsys as (s & -> & _).
  destruct (final_answer step) as [answer|e] eqn:Hans; [|aborted Hk Htr Htab].
  destruct (final_reflection step "noveltyscore") as [v3|e] eqn:H3; [|aborted Hk Htr Htab].
  destruct (final_reflection step "notnovel") as [v4|e] eqn:H4; [|aborted Hk Htr Htab].
  destruct (final_reflection step "missing") as [v5|e] eqn:H5; [|aborted Hk Htr Htab].
  destruct (final_reflection step "superfluous") as [v6|e] eqn:H6; [|aborted Hk Htr Htab].
  destruct (final_reflection step "flag") as [v7|e] eqn:H7; [|aborted Hk Htr Htab].
  destruct (final_reflection step "references_field") as [v8|e] eqn:H8;
    [|aborted Hk Htr Htab].
  destruct (py_str_add _ answer) as [question|e] eqn:Hq; [|aborted Hk Htr Htab].
  apply py_str_add_ok in Hq as (a & -> & ->).
  destruct (guardrails_invoke _ s2) as [[b|e] s3] eqn:Hguard;
    simpl in Hk; [|aborted Hk Htr Htab].
  rewrite ?append_nil_r in Hk.
  destruct (llm_short_invoke _ s3) as [[r|e] s4] eqn:Hllm;
    simpl in Hk; [|aborted Hk Htr Htab].
  destruct (DataFrame _) as [row|e] eqn:Hrow; [|aborted Hk Htr Htab].
  inversion Hk; subst res w'; clear Hk. left.
  eapply (Completed self acc w _ _ step w0 s a v3 v4 v5 v6 v7 v8 docs b r row gevs);
    eauto.
  - simpl. rewrite Htr, <- !app_assoc. reflexivity.
  - simpl. by rewrite Htab.
Qed.


Global Instance extended_refl : Reflexive extended.
Proof. intros t. exists []. by rewrite app_nil_r. Qed.

Global Instance extended_trans : Transitive extended.
Proof.
  intros t1 t2 t3 [r1 ->] [r2 ->]. exists (r1 ++ r2)%list. by rewrite app_assoc.
Qed.

Lemma orderly_concat_row P row : orderly P extended (concat_row row).
Proof.
  intros w res w' Heq. inversion Heq; subst. exists [].
  split; simpl; auto.
  - by rewrite app_nil_r.
  - exists []. by rewrite app_nil_r.
  - by exists [row].
  - intros i ev e Hi. by rewrite lookup_nil in Hi.
Qed.

Lemma orderly_graph_stream T `{!Reflexive T, !Transitive T} self input :
  orderly (fun _ => True) T (graph_stream self input write_last).
Proof.
  unfold graph_stream. apply orderly_bind; [apply _| |intros _].
  - apply orderly_emit; try apply _; done.
  - eapply orderly_weaken with (P := not_stream) (T := T); [done|done|].
    orderly_step; [apply orderly_write_last; apply _|].
    apply orderly_graph_steps; apply _.
Qed.

Lemma orderly_hypothesis_cycle self acc :
  orderly (fun _ => True) extended (hypothesis_cycle self acc).
Proof.
  unfold hypothesis_cycle.
  repeat first
    [ apply orderly_graph_stream; apply _
    | apply orderly_concat_row
    | eapply orderly_weaken with (P := not_stream) (T := extended);
        [done | done | apply orderly_llm_short_chain; apply _]
    | apply orderly_lift; apply _
    | orderly_call
    | apply orderly_bind; [apply _ | | intros ?] ].
Qed.

Lemma orderly_hypothesis_cycles self n :
  forall acc, orderly (fun _ => True) extended (hypothesis_cycles self n acc).
Proof.
  induction n as [|n IH]; intros acc; simpl; [orderly_step|].
  apply orderly_bind; [apply _|apply orderly_hypothesis_cycle|apply IH].
Qed.

End Graph_effects.

(** ** The outer loop *)

Section Outer_loop.
Context {Ext : Type} `{Collaborators Ext}.

Lemma stream_inputs_app l1 l2 :
  stream_inputs (l1 ++ l2) = (stream_inputs l1 ++ stream_inputs l2)%list.
Proof.
  induction l1 as [|ev l1 IH]; simpl; [done|].
  destruct ev; simpl; by rewrite ?IH.
Qed.

Lemma stream_inputs_none l : Forall not_stream l -> stream_inputs l = [].
Proof. induction 1 as [|ev l Hev _ IH]; simpl; [done|]. by destruct ev. Qed.

Lemma append_assoc (a b c : string) : (a +:+ b) +:+ c = a +:+ (b +:+ c).
Proof.
  induction a as [|x a IH]; [reflexivity|].
  change (String x ((a +:+ b) +:+ c) = String x (a +:+ (b +:+ c))). by f_equal.
Qed.

Lemma concat_cons (acc name : string) (names : list string) :
  acc +:+ String.concat "" (name :: names) = (acc +:+ name) +:+ String.concat "" names.
Proof.
  destruct names as [|name' names].
  - simpl. by rewrite append_nil_r.
  - change (String.concat "" (name :: name' :: names))
      with (name +:+ String.concat "" (name' :: names)).
    by rewrite append_assoc.
Qed.

(** The shape of the row a completed run of the loop body appends. *)
Lemma completed_row (s a : string) (v3 v4 v5 v6 v7 v8 : Json) (b c : string) row :
  DataFrame
    [("Hypotheses short description", JStr s); ("Generated Hypotheses", JStr a);
     ("Novelty", v3); ("What is not novel", v4); ("Missing", v5);
     ("Superfluous", v6); ("Flag", v7); ("References", v8);
     ("Biohazard", JStr b); ("Relations to literature", JStr c)] = Ok row ->
  exists x3 x4 x5 x6 x7 x8,
    row = [("Hypotheses short description", JStr s); ("Generated Hypotheses", JStr a);
           ("Novelty", x3); ("What is not novel", x4); ("Missing", x5);
           ("Superfluous", x6); ("Flag", x7); ("References", x8);
           ("Biohazard", JStr b); ("Relations to literature", JStr c)]
    /\ frame_cell v3 = Ok x3 /\ frame_cell v4 = Ok x4 /\ frame_cell v5 = Ok x5
    /\ frame_cell v6 = Ok x6 /\ frame_cell v7 = Ok x7 /\ frame_cell v8 = Ok x8.
Proof.
  simpl.
  destruct (frame_cell v3) as [x3|]; [|discriminate].
  destruct (frame_cell v4) as [x4|]; [|discriminate].
  destruct (frame_cell v5) as [x5|]; [|discriminate].
  destruct (frame_cell v6) as [x6|]; [|discriminate].
  destruct (frame_cell v7) as [x7|]; [|discriminate].
  destruct (frame_cell v8) as [x8|]; [|discriminate].
  intros Heq. inversion Heq; subst. by exists x3, x4, x5, x6, x7, x8.
Qed.

Lemma completed_named_row self acc (w w' : World Ext) res :
  cycle_completed self acc w w' res ->
  exists s row events,
    res = Ok (acc +:+ s)
    /\ named_row s row
    /\ hypothesisdf_all w' = (hypothesisdf_all w ++ [row])%list
    /\ trace w' = (trace w ++ EvGraphStream [HumanMessage (seed_text +:+ acc)] :: events)%list
    /\ Forall not_stream events.
Proof.
  intros [step w1 s a v3 v4 v5 v6 v7 v8 docs b r row gevs
            _ _ _ _ _ _ _ _ _ Hns Htr Hrow Htab ->].
  apply completed_row in Hrow as (x3 & x4 & x5 & x6 & x7 & x8 & -> & _).
  eexists s, _, _. split; [done|].
  refine (conj _ (conj Htab (conj Htr _))); [by split|].
  apply Forall_app. split; [done|]. repeat constructor.
Qed.

Lemma cycles_ok_inv self n :
  forall acc (w : World Ext) acc' w',
    hypothesis_cycles self n acc w = (Ok acc', w') ->
    exists names rows events,
      length names = n
      /\ Forall2 named_row names rows
      /\ hypothesisdf_all w' = (hypothesisdf_all w ++ rows)%list
      /\ trace w' = (trace w ++ events)%list
      /\ stream_inputs events = seeds acc names
      /\ acc' = acc +:+ String.concat "" names.
Proof.
  induction n as [|n IH]; intros acc w acc' w' Hrun; simpl in Hrun.
  - inversion Hrun; subst. exists [], [], [].
    rewrite !app_nil_r, append_nil_r. repeat split; auto.
  - bind_cases Hrun; [|discriminate].
    apply hypothesis_cycle_inv in Hm as [Hdone|(e & ? & ? & _)]; [|discriminate].
    apply completed_named_row in Hdone as (s & row & evs & Ha & Hrow & Htab & Htr & Hns).
    inversion Ha; subst a.
    apply IH in Hk as (names & rows & events & Hlen & Hrows & Htab' & Htr' & Hin & ->).
    exists (s :: names), (row :: rows),
      (EvGraphStream [HumanMessage (seed_text +:+ acc)] :: evs ++ events)%list.
    split; [simpl; lia|]. split; [by constructor|].
    split; [by rewrite Htab', Htab, <- app_assoc|].
    split; [by rewrite Htr', Htr, <- app_assoc|].
    split.
    + simpl. by rewrite stream_inputs_app, (stream_inputs_none _ Hns), Hin.
    + by rewrite concat_cons.
Qed.

(** A run of the loop that raises has completed some iterations and then
    aborted the next one; nothing runs after it. *)
Lemma cycles_raise_inv self n :
  forall acc (w : World Ext) e w',
    hypothesis_cycles self n acc w = (Raise e, w') ->
    exists j acc_j w_j,
      (j < n)%nat
      /\ hypothesis_cycles self j acc w = (Ok acc_j, w_j)
      /\ hypothesis_cycle self acc_j w_j = (Raise e, w').
Proof.
  induction n as [|n IH]; intros acc w e w' Hrun; simpl in Hrun; [discriminate|].
  bind_cases Hrun.
  - apply IH in Hk as (j & acc_j & w_j & Hj & Hpre & Hfail).
    exists (Datatypes.S j), acc_j, w_j. split; [lia|]. split; [|done].
    simpl. unfold bind. by rewrite Hm.
  - inversion Hk; subst. exists 0%nat, acc, w. split; [lia|]. by split.
Qed.

End Outer_loop.

Section Session.
Context {Ext : Type} `{Collaborators Ext}.

Lemma seeds_lookup names :
  forall acc k input,
    (seeds acc names ++ [[HumanMessage (seed_text +:+ acc +:+ String.concat "" names)]])%list
      !! k = Some input ->
    (k <= length names)%nat
    /\ input = [HumanMessage (seed_text +:+ acc +:+ String.concat "" (take k names))].
Proof.
  induction names as [|name rest IH]; intros acc k input Hk.
  - destruct k as [|k]; simpl in Hk; [|by rewrite lookup_nil in Hk].
    inversion Hk; subst. split; [simpl; lia|done].
  - rewrite concat_cons in Hk. destruct k as [|k]; simpl in Hk.
    + inversion Hk; subst. split; [simpl; lia|]. simpl. by rewrite append_nil_r.
    + apply IH in Hk as [Hle ->].
      split; [simpl; lia|]. simpl take. by rewrite concat_cons.
Qed.

Lemma concat_step (name : string) (names : list string) :
  String.concat "" (name :: names) = name +:+ String.concat "" names.
Proof. destruct names; simpl; [by rewrite append_nil_r|done]. Qed.

Lemma concat_contains (names : list string) (name : string) :
  name ∈ names -> exists pre post, String.concat "" names = pre +:+ name +:+ post.
Proof.
  induction 1 as [name rest|name other rest _ (pre & post & IH)];
    rewrite concat_step.
  - by exists "", (String.concat "" rest).
  - exists (other +:+ pre), post. by rewrite IH, append_assoc.
Qed.

(** What [generate_hypotheses] does before the loop: it either raises with
    the table as it was, or leaves an empty table. *)
Lemma generate_inv self (w : World Ext) res w' :
  generate_hypotheses self w = (res, w') ->
  exists w0 events0,
    trace w0 = (trace w ++ events0)%list
    /\ Forall not_stream events0
    /\ ((exists e, res = Raise e /\ w' = w0
                   /\ hypothesisdf_all w0 = hypothesisdf_all w)
        \/ (hypothesisdf_all w0 = []
            /\ exists res_loop,
                 hypothesis_cycles self (Z.to_nat (iterations self)) "" w0 = (res_loop, w')
                 /\ res = match res_loop with
                          | Ok _ => Ok (hypothesisdf_all w')
                          | Raise e => Raise e
                          end)).
Proof.
  unfold generate_hypotheses. intros Hrun.
  unfold bind at 1, alloc in Hrun.
  bind_cases Hrun.
  - apply (orderly_respond_graph eq) in Hm as [evs [Ht He _ HT _ _]]. simpl in *.
    unfold bind at 1, set_table in Hk.
    eexists (mkWorld (ext w0) (heap w0) (trace w0) []), evs.
    split; [done|]. split; [done|]. right. split; [done|].
    bind_cases Hk.
    + inversion Hk0; subst. eauto.
    + subst. eauto.
  - apply (orderly_respond_graph eq) in Hm as [evs [Ht He _ HT _ _]]. simpl in *.
    subst res. exists w', evs. split; [done|]. split; [done|]. left. eauto.
Qed.

(** C4.  In a session, the seed of the k-th graph run (counting from 0) is
    the fixed request followed by the concatenation, without delimiter and
    in order, of the short names of the first k rows of the table, which are
    the rows of the iterations completed before it: the accumulator is empty
    at first, is never reset or shortened, and every earlier short name is a
    substring of the seed.  A session that returns has started one run per
    iteration. *)
Theorem known_concepts_accumulate_in_order (self : HypothesisGenerator) (w : World Ext) :
  (forall k input,
      stream_inputs (emitted (generate_hypotheses self) w) !! k = Some input ->
      exists names,
        length names = k
        /\ Forall2 named_row names
             (take k (hypothesisdf_all (after (generate_hypotheses self) w)))
        /\ input = [HumanMessage (seed_text +:+ String.concat "" names)]
        /\ forall name, name ∈ names ->
             exists pre post,
               seed_text +:+ String.concat "" names = pre +:+ name +:+ post)
  /\ (forall t,
        result (generate_hypotheses self) w = Ok t ->
        length (stream_inputs (emitted (generate_hypotheses self) w))
        = Z.to_nat (iterations self)).
Proof.
  pose proof (run_eq (generate_hypotheses self) w) as Hrun.
  apply generate_inv in Hrun
    as (w0 & evs0 & Htr0 & Hns0 & [(e & Hres & Hw & _)|(Htab0 & res_loop & Hloop & Hres)]).
  { (* the call before the loop raised *)
    rewrite <- Hw in Htr0. rewrite (emitted_app _ _ _ Htr0), (stream_inputs_none _ Hns0).
    split; [intros k input Hk; by rewrite lookup_nil in Hk|].
    intros t Ht. congruence. }
  assert (Hgoal : exists names rows extra,
    hypothesisdf_all (after (generate_hypotheses self) w) = rows
    /\ Forall2 named_row names rows
    /\ (stream_inputs (emitted (generate_hypotheses self) w) ++ extra)%list
       = (seeds "" names ++ [[HumanMessage (seed_text +:+ "" +:+ String.concat "" names)]])%list
    /\ (is_ok res_loop = true -> length names = Z.to_nat (iterations self)
                                 /\ length extra = 1%nat)).
  { destruct res_loop as [acc'|e].
    - apply cycles_ok_inv in Hloop as (names & rows & evs & Hlen & Hrows & Htab & Htr & Hin & _).
      exists names, rows, [[HumanMessage (seed_text +:+ "" +:+ String.concat "" names)]].
      rewrite Htr0, <- app_assoc in Htr.
      rewrite (emitted_app _ _ _ Htr), stream_inputs_app, (stream_inputs_none _ Hns0), Hin.
      rewrite Htab, Htab0. by repeat split.
    - apply cycles_raise_inv in Hloop as (j & acc_j & w_j & Hj & Hpre & Hfail).
      apply cycles_ok_inv in Hpre as (names & rows & evs & Hlen & Hrows & Htab & Htr & Hin & ->).
      apply hypothesis_cycle_inv in Hfail as [Hdone|(e' & tail & _ & Htab' & Htr' & Hns')].
      { apply completed_named_row in Hdone as (? & ? & ? & ? & _). discriminate. }
      exists names, rows, [].
      rewrite Htr, Htr0, <- !app_assoc in Htr'.
      rewrite (emitted_app _ _ _ Htr'), !stream_inputs_app, (stream_inputs_none _ Hns0), Hin.
      simpl. rewrite (stream_inputs_none _ Hns'), app_nil_r.
      rewrite Htab', Htab, Htab0. repeat split; auto; discriminate. }
  destruct Hgoal as (names & rows & extra & Htab & Hrows & Hin & Hok). split.
  - intros k input Hk.
    eapply lookup_app_l_Some in Hk. rewrite Hin in Hk.
    apply seeds_lookup in Hk as [Hle ->].
    exists (take k names). split; [rewrite length_take; lia|].
    split; [rewrite Htab; by apply Forall2_take|]. split; [done|].
    intros name Hname. apply concat_contains in Hname as (pre & post & ->).
    exists (seed_text +:+ pre), post. by rewrite append_assoc.
  - intros t Ht. destruct res_loop as [acc'|e]; [|congruence].
    destruct (Hok eq_refl) as [Hlen Hextra].
    apply (f_equal length) in Hin. rewrite !length_app in Hin. simpl in Hin.
    assert (Hseeds : forall acc, length (seeds acc names) = length names).
    { clear. induction names as [|x l IH]; intros acc; simpl; [done|]. by rewrite IH. }
    rewrite Hseeds in Hin. lia.
Qed.

Global Instance any_table_refl : Reflexive any_table.
Proof. done. Qed.

Global Instance any_table_trans : Transitive any_table.
Proof. done. Qed.

Lemma orderly_generate_hypotheses self :
  orderly (fun _ => True) any_table (generate_hypotheses self).
Proof.
  unfold generate_hypotheses.
  apply orderly_bind; [apply _|apply orderly_alloc; apply _|intros l].
  apply orderly_bind; [apply _| |intros initial].
  { eapply orderly_weaken with (P := not_stream) (T := any_table); [done|done|].
    apply orderly_respond_graph; apply _. }
  apply orderly_bind; [apply _|by apply orderly_set_table|intros _].
  apply orderly_bind; [apply _| |intros _; apply orderly_get_table; apply _].
  eapply orderly_weaken; [| |apply orderly_hypothesis_cycles]; done.
Qed.

Lemma frame_cell_scalar v : is_scalar v = true -> frame_cell v = Ok v.
Proof. by destruct v. Qed.

Lemma field_present_inv step field v x :
  field_present step field = true ->
  final_reflection step field = Ok v ->
  frame_cell v = Ok x ->
  is_null x = false.
Proof.
  unfold field_present. intros Hp Hv Hx. rewrite Hv in Hp.
  apply andb_prop in Hp as [Hs Hn]. rewrite (frame_cell_scalar _ Hs) in Hx.
  inversion Hx; subst. by destruct x.
Qed.

(** The rows of a run of the loop that returns: one per iteration, in the
    order of the iterations. *)
Lemma cycles_ok_rows self n :
  forall acc (w : World Ext) acc' w',
    hypothesis_cycles self n acc w = (Ok acc', w') ->
    exists rows,
      length rows = n
      /\ hypothesisdf_all w' = (hypothesisdf_all w ++ rows)%list
      /\ Forall (fun row => map fst row = columns) rows
      /\ forall i, (i <= n)%nat ->
           hypothesisdf_all (after (hypothesis_cycles self i acc) w)
           = (hypothesisdf_all w ++ take i rows)%list.
Proof.
  induction n as [|n IH]; intros acc w acc' w' Hrun; simpl in Hrun.
  - inversion Hrun; subst. exists []. rewrite app_nil_r. repeat split; auto.
    intros i Hi. assert (i = 0%nat) as -> by lia. simpl. by rewrite app_nil_r.
  - bind_cases Hrun; [|discriminate].
    pose proof Hm as Hfirst.
    apply hypothesis_cycle_inv in Hm as [Hdone|(e & ? & ? & _)]; [|discriminate].
    apply completed_named_row in Hdone as (s & row & evs & Ha & [Hcols _] & Htab & _).
    apply IH in Hk as (rows & Hlen & Htab' & Hrows & Hpre).
    exists (row :: rows). split; [simpl; lia|].
    split; [by rewrite Htab', Htab, <- app_assoc|]. split; [by constructor|].
    intros [|i] Hi; simpl.
    + by rewrite app_nil_r.
    + unfold after at 1. simpl. unfold bind. rewrite Hfirst.
      fold (after (hypothesis_cycles self i a) w0).
      rewrite Hpre by lia. by rewrite Htab, <- app_assoc.
Qed.

(** C5.  An exception raised by a collaborator anywhere in a session is the
    outcome of the session and nothing runs after the failing call; when
    this happens in the j-th iteration started, the table has exactly j - 1
    rows.  A run of the loop that raises has completed j iterations, whose
    rows are in the table and are all that was added, and aborted the next
    one, after which nothing ran.  An aborted run of the loop body leaves
    the table as it was, and a completed one has appended its row after the
    answers of the guardrails chain and of the relation chain came back. *)
Theorem fault_aborts_iteration_and_keeps_earlier_rows (self : HypothesisGenerator) :
  (forall (w : World Ext) i ev e,
      emitted (generate_hypotheses self) w !! i = Some ev ->
      ev_fault ev = Some e ->
      result (generate_hypotheses self) w = Raise e
      /\ length (emitted (generate_hypotheses self) w) = Datatypes.S i
      /\ (stream_inputs (emitted (generate_hypotheses self) w) <> [] ->
          Datatypes.S (length (hypothesisdf_all (after (generate_hypotheses self) w)))
          = length (stream_inputs (emitted (generate_hypotheses self) w))))
  /\ (forall n acc (w : World Ext) e,
        result (hypothesis_cycles self n acc) w = Raise e ->
        exists j acc_j rows,
          (j < n)%nat
          /\ result (hypothesis_cycles self j acc) w = Ok acc_j
          /\ hypothesis_cycle self acc_j (after (hypothesis_cycles self j acc) w)
             = (Raise e, after (hypothesis_cycles self n acc) w)
          /\ length rows = j
          /\ hypothesisdf_all (after (hypothesis_cycles self j acc) w)
             = (hypothesisdf_all w ++ rows)%list
          /\ hypothesisdf_all (after (hypothesis_cycles self n acc) w)
             = (hypothesisdf_all w ++ rows)%list)
  /\ (forall acc (w : World Ext) e,
        result (hypothesis_cycle self acc) w = Raise e ->
        hypothesisdf_all (after (hypothesis_cycle self acc) w) = hypothesisdf_all w)
  /\ (forall acc (w : World Ext) acc',
        result (hypothesis_cycle self acc) w = Ok acc' ->
        cycle_completed self acc w (after (hypothesis_cycle self acc) w) (Ok acc')).
Proof.
  assert (Hloop : forall n acc (w : World Ext) e,
    result (hypothesis_cycles self n acc) w = Raise e ->
    exists j acc_j rows,
      (j < n)%nat
      /\ result (hypothesis_cycles self j acc) w = Ok acc_j
      /\ hypothesis_cycle self acc_j (after (hypothesis_cycles self j acc) w)
         = (Raise e, after (hypothesis_cycles self n acc) w)
      /\ length rows = j
      /\ hypothesisdf_all (after (hypothesis_cycles self j acc) w)
         = (hypothesisdf_all w ++ rows)%list
      /\ hypothesisdf_all (after (hypothesis_cycles self n acc) w)
         = (hypothesisdf_all w ++ rows)%list).
  { intros n acc w e Hres.
    pose proof (run_eq (hypothesis_cycles self n acc) w) as Hrun. rewrite Hres in Hrun.
    apply cycles_raise_inv in Hrun as (j & acc_j & w_j & Hj & Hpre & Hfail).
    pose proof Hpre as Hrows.
    apply cycles_ok_rows in Hrows as (rows & Hlen & Htab & _).
    assert (Hwj : after (hypothesis_cycles self j acc) w = w_j)
      by (unfold after; by rewrite Hpre).
    exists j, acc_j, rows. rewrite Hwj. split; [done|].
    split; [unfold result; by rewrite Hpre|]. split; [done|]. split; [done|].
    split; [done|].
    apply hypothesis_cycle_inv in Hfail as [Hdone|(e' & tail & _ & Htab' & _)].
    { apply completed_named_row in Hdone as (? & ? & ? & ? & _). discriminate. }
    by rewrite Htab'. }
  split; [|split; [exact Hloop|split]].
  - intros w i ev e Hi Hev.
    destruct (orderly_generate_hypotheses self w _ _ (run_eq _ w))
      as [evs [Ht _ _ _ _ Hf]].
    rewrite (emitted_app _ _ _ Ht) in *.
    destruct (Hf i ev e Hi Hev) as [Hr Hlen].
    assert (Hres : result (generate_hypotheses self) w = Raise e).
    { destruct (result (generate_hypotheses self) w); inversion Hr; done. }
    split; [done|]. split; [done|]. intros Hstarted.
    pose proof (run_eq (generate_hypotheses self) w) as Hrun.
    apply generate_inv in Hrun
      as (w0 & evs0 & Htr0 & Hns0 & [(e0 & _ & Hw & _)|(Htab0 & res_loop & Hcycles & Hres')]).
    { rewrite <- Hw, Ht in Htr0. apply app_inv_head in Htr0. subst evs0.
      by rewrite (stream_inputs_none _ Hns0) in Hstarted. }
    rewrite Hres in Hres'. destruct res_loop as [|e1]; [discriminate|].
    apply cycles_raise_inv in Hcycles as (j & acc_j & w_j & Hj & Hpre & Hfail).
    apply cycles_ok_inv in Hpre as (names & rows & evs1 & Hlen1 & Hrows & Htab & Htr & Hin & _).
    apply hypothesis_cycle_inv in Hfail as [Hdone|(e' & tail & _ & Htab' & Htr' & Hns')].
    { apply completed_named_row in Hdone as (? & ? & ? & ? & _). discriminate. }
    rewrite Htr, Htr0, <- !app_assoc, Ht in Htr'. apply app_inv_head in Htr'. subst evs.
    rewrite !stream_inputs_app, (stream_inputs_none _ Hns0), Hin. simpl.
    rewrite (stream_inputs_none _ Hns'), Htab', Htab, Htab0. simpl.
    rewrite length_app. simpl.
    assert (Hseeds : forall a, length (seeds a names) = length names).
    { clear. induction names as [|x l IH]; intros a; simpl; [done|]. by rewrite IH. }
    rewrite Hseeds, (Forall2_length _ _ _ Hrows). lia.
  - intros acc w e Hres.
    pose proof (run_eq (hypothesis_cycle self acc) w) as Hrun. rewrite Hres in Hrun.
    apply hypothesis_cycle_inv in Hrun as [Hdone|(e' & tail & _ & Htab' & _)]; [|done].
    apply completed_named_row in Hdone as (? & ? & ? & ? & _). discriminate.
  - intros acc w acc' Hres.
    pose proof (run_eq (hypothesis_cycle self acc) w) as Hrun. rewrite Hres in Hrun.
    apply hypothesis_cycle_inv in Hrun as [Hdone|(e' & tail & ? & _)]; [done|discriminate].
Qed.

End Session.



(** ** A session with cooperative collaborators returns *)

Section Progress.
Context {Ext : Type} `{Collaborators Ext}.
Local Open Scope list_scope.
Variable self : HypothesisGenerator.
Hypothesis Hcoop : cooperative self.

Lemma py_index_last {A} (pre : list A) (x : A) : py_index (pre ++ [x]) (-1) = Ok x.
Proof.
  unfold py_index. rewrite length_app. simpl.
  replace (Z.of_nat (length pre + 1) + -1) with (Z.of_nat (length pre)) by lia.
  destruct (Z.ltb_spec (Z.of_nat (length pre)) 0) as [Hlt|_]; [lia|].
  by rewrite Nat2Z.id, list_lookup_middle.
Qed.

Lemma final_args_last (pre : list Message) (m : Message) :
  final_args (pre ++ [m]) = final_args [m].
Proof. unfold final_args. rewrite py_index_last. reflexivity. Qed.

Lemma row_ready_last (pre : list Message) (m : Message) :
  row_ready (pre ++ [m]) = row_ready [m].
Proof.
  unfold row_ready, final_reflection, final_answer.
  by rewrite !final_args_last.
Qed.

Lemma write_last_ok (pre : list Message) (m : Message) (w : World Ext) :
  exists w', write_last (pre ++ [m]) w = (Ok tt, w').
Proof.
  unfold write_last, bind, lift. rewrite py_index_last. simpl. eauto.
Qed.

Lemma respond_first_ok (l : loc) (history : list Message) (w : World Ext) :
  heap w !! l = Some history ->
  exists r w',
    respond (first_responder self) l w = (Ok r, w')
    /\ well_formed self initial_answer_chain r.
Proof.
  intros Hl. unfold respond. simpl. unfold invoke_chain, bind, deref, call.
  rewrite Hl. simpl.
  destruct (proj1 Hcoop initial_answer_chain history [attempt_tag 0] (ext w))
    as (r & s' & Hcall & Hwf).
  rewrite Hcall. simpl. pose proof Hwf as (Hv & _). simpl in Hv. rewrite Hv. simpl.
  eexists _, _. split; [reflexivity|done].
Qed.

Lemma respond_revisor_ok (l : loc) (history : list Message) (w : World Ext) :
  heap w !! l = Some history ->
  exists r w',
    respond (revisor self) l w = (Ok r, w') /\ well_formed self revision_chain r.
Proof.
  intros Hl. unfold respond. simpl. unfold invoke_chain, bind, deref, call.
  rewrite Hl. simpl.
  destruct (proj1 Hcoop revision_chain history [attempt_tag 0] (ext w))
    as (r & s' & Hcall & Hwf).
  rewrite Hcall. simpl. pose proof Hwf as (Hv & _). simpl in Hv. rewrite Hv. simpl.
  eexists _, _. split; [reflexivity|done].
Qed.

Lemma run_queries_from_ok (search_queries : list string) :
  forall results (w : World Ext),
    exists rs w', run_queries_from results search_queries w = (Ok rs, w').
Proof.
  induction search_queries as [|q rest IH]; intros results w; simpl.
  - unfold ret. eauto.
  - unfold bind, call.
    destruct (proj1 (proj2 Hcoop) "" q (ext w)) as (a & s' & Hcall).
    rewrite Hcall. simpl. apply IH.
Qed.

Lemma run_all_ok (tcs : list ToolCall) :
  forallb runnable_call tcs = true ->
  forall (w : World Ext),
    exists ms w', run_all tcs w = (Ok ms, w') /\ Forall ai_or_tool ms.
Proof.
  induction tcs as [|tc rest IH]; intros Hall w; simpl.
  - unfold ret. eauto.
  - apply forallb_cons_true in Hall as [Htc Hrest].
    unfold runnable_call in Htc. unfold bind at 1, run_one.
    destruct (lookup_tool (tc_name tc) tools_by_name) as [tool|] eqn:Htool; [|discriminate].
    assert (tool = run_queries) as ->.
    { unfold tools_by_name in Htool. simpl in Htool.
      repeat case_match; by simplify_eq. }
    destruct (bind_search_queries (tc_args tc)) as [qs|] eqn:Hqs; [|discriminate].
    unfold bind, lift. simpl.
    destruct (run_queries_from_ok qs [] w) as (rs & w1 & Hrun).
    unfold run_queries. rewrite Hrun. simpl.
    destruct (IH Hrest w1) as (ms & w2 & Hms & Hfa). rewrite Hms. simpl.
    eexists _, _. split; [reflexivity|]. constructor; [by right|done].
Qed.

Lemma tool_node_ok (pre : list Message) (c : Chain) (r : AIMsg) (w : World Ext) :
  well_formed self c r ->
  exists ms w', tool_node (pre ++ [AIMessage r]) w = (Ok ms, w') /\ Forall ai_or_tool ms.
Proof.
  intros (_ & Hcalls & _). unfold tool_node, bind, lift.
  rewrite py_index_last. simpl. by apply run_all_ok.
Qed.

Lemma write_last_nonempty (st : list Message) (w : World Ext) :
  st <> [] -> exists w', write_last st w = (Ok tt, w').
Proof.
  destruct st as [|m pre _] using rev_ind; [done|]. intros _. apply write_last_ok.
Qed.

Lemma graph_steps_S on_step fuel n state :
  graph_steps self on_step (Datatypes.S fuel) n state
  = (out <- run_node self n state ;;
     on_step (state ++ out)%list ;;;
     match next_node self n (state ++ out)%list with
     | None => ret (state ++ out)%list
     | Some n' => graph_steps self on_step fuel n' (state ++ out)%list
     end).
Proof. reflexivity. Qed.

Lemma revise_next (pre run : list Message) :
  Forall ai_or_tool run ->
  match last pre with None => True | Some m => ~ ai_or_tool m end ->
  (agent_iterations self < Z.of_nat (length run)
   /\ next_node self revise (pre ++ run) = None)
  \/ (Z.of_nat (length run) <= agent_iterations self
      /\ next_node self revise (pre ++ run) = Some execute_tools).
Proof.
  intros Hrun Hpre. unfold next_node, event_loop.
  rewrite (get_num_iterations_run pre run Hrun Hpre).
  destruct (Z.gtb_spec (Z.of_nat (length run)) (agent_iterations self));
    [left|right]; split; auto; lia.
Qed.

(** From the tool execution on, the rounds of the graph end before the
    fuel does. *)
Lemma graph_rounds_ok (d : nat) :
  forall fuel seed rest c r (w : World Ext),
    ~ ai_or_tool seed -> Forall ai_or_tool rest -> well_formed self c r ->
    (Z.to_nat (agent_iterations self + 1 - Z.of_nat (length rest + 1)) <= d)%nat ->
    (2 * d + 2 <= fuel)%nat ->
    exists step w',
      graph_steps self write_last fuel execute_tools (seed :: rest ++ [AIMessage r]) w
      = (Ok step, w')
      /\ row_ready step = true
      /\ exists pre r', step = pre ++ [AIMessage r'] /\ well_formed self revision_chain r'.
Proof.
  induction d as [|d IH]; intros fuel seed rest c r w Hseed Hrest Hwf Hd Hfuel.
  all: destruct fuel as [|[|fuel]]; try lia.
  all: rewrite graph_steps_S; unfold bind at 1; simpl run_node.
  all: destruct (tool_node_ok (seed :: rest) c r w Hwf) as (ms & w1 & Htools & Hms).
  all: change (seed :: rest ++ [AIMessage r])%list with ((seed :: rest) ++ [AIMessage r])%list;
       rewrite Htools.
  all: unfold bind at 1.
  all: set (st1 := ((seed :: rest) ++ [AIMessage r]) ++ ms).
  all: destruct (write_last_nonempty st1 w1) as (w2 & Hwrite);
         [subst st1; by destruct rest|].
  all: rewrite Hwrite; unfold next_node; cbv iota.
  all: rewrite graph_steps_S; unfold bind at 1; unfold run_node.
  all: unfold bind at 1, alloc.
  all: destruct (respond_revisor_ok (length (heap w2)) st1
                   (mkWorld (ext w2) (heap w2 ++ [st1]) (trace w2) (hypothesisdf_all w2)))
         as (r2 & w3 & Hrev & Hwf2);
         [simpl; apply list_lookup_middle; reflexivity|].
  all: unfold bind at 1; rewrite Hrev; unfold ret at 1.
  all: unfold bind at 1.
  all: destruct (write_last_ok st1 (AIMessage r2) w3) as (w4 & Hwrite2).
  all: rewrite Hwrite2.
  all: subst st1.
  all: assert (Hshape : ((((seed :: rest) ++ [AIMessage r]) ++ ms) ++ [AIMessage r2])%list
                        = ([seed] ++ (rest ++ [AIMessage r] ++ ms ++ [AIMessage r2]))%list)
         by (simpl; by rewrite <- !app_assoc).
  all: assert (Hrun : Forall ai_or_tool (rest ++ [AIMessage r] ++ ms ++ [AIMessage r2]))
         by (repeat (apply Forall_app; split); auto; repeat constructor; by left).
  all: destruct (revise_next [seed] _ Hrun Hseed) as [[Hlt Hnext]|[Hle Hnext]];
         rewrite <- Hshape in Hnext; rewrite Hnext.
  all: try (eexists _, _; split; [reflexivity|];
            split; [rewrite row_ready_last; by destruct Hwf2 as (_ & _ & ?)|];
            eexists _, _; by split).
  all: rewrite !length_app in Hle; simpl in Hle.
  - lia.
  - replace ((((seed :: rest) ++ [AIMessage r]) ++ ms) ++ [AIMessage r2])%list
      with (seed :: (rest ++ [AIMessage r] ++ ms) ++ [AIMessage r2])%list
      by (simpl; by rewrite <- !app_assoc).
    apply (IH _ _ _ revision_chain); auto.
    + repeat (apply Forall_app; split); auto. repeat constructor.
    + rewrite !length_app. simpl. lia.
    + lia.
Qed.

Hypothesis Hlimit :
  (2 * Z.to_nat (agent_iterations self) + 3 <= recursion_limit self)%nat.

Lemma graph_stream_ok (acc : string) (w : World Ext) :
  exists step w',
    graph_stream self [HumanMessage (seed_text +:+ acc)] write_last w = (Ok step, w')
    /\ row_ready step = true
    /\ exists pre r', step = pre ++ [AIMessage r'] /\ well_formed self revision_chain r'.
Proof.
  unfold graph_stream. unfold bind at 1, emit. unfold bind at 1.
  set (seed := HumanMessage (seed_text +:+ acc)).
  match goal with
  | |- context [write_last [seed] ?w0] =>
      destruct (write_last_ok [] seed w0) as (w1 & Hwrite)
  end.
  simpl app in Hwrite. rewrite Hwrite.
  pose proof Hlimit as Hlim. revert Hlim. generalize (recursion_limit self).
  intros [|fuel] Hlim; [lia|].
  rewrite graph_steps_S. unfold bind at 1. unfold run_node.
  unfold bind at 1, alloc.
  destruct (respond_first_ok (length (heap w1)) [seed]
               (mkWorld (ext w1) (heap w1 ++ [[seed]]) (trace w1) (hypothesisdf_all w1)))
    as (r & w2 & Hdraft & Hwf); [simpl; apply list_lookup_middle; reflexivity|].
  unfold bind at 1. rewrite Hdraft. unfold ret at 1. unfold bind at 1.
  destruct (write_last_ok [seed] (AIMessage r) w2) as (w3 & Hwrite2).
  rewrite Hwrite2. unfold next_node. cbv iota.
  apply (graph_rounds_ok (Z.to_nat (agent_iterations self)) fuel seed []
           initial_answer_chain r w3); auto.
  - intros [Hm|Hm]; discriminate.
  - simpl. lia.
  - lia.
Qed.

Lemma row_ready_inv (step : list Message) :
  row_ready step = true ->
  exists s a v3 v4 v5 v6 v7 v8 x3 x4 x5 x6 x7 x8,
    final_reflection step "shortname" = Ok (JStr s)
    /\ final_answer step = Ok (JStr a)
    /\ (final_reflection step "noveltyscore" = Ok v3 /\ frame_cell v3 = Ok x3)
    /\ (final_reflection step "notnovel" = Ok v4 /\ frame_cell v4 = Ok x4)
    /\ (final_reflection step "missing" = Ok v5 /\ frame_cell v5 = Ok x5)
    /\ (final_reflection step "superfluous" = Ok v6 /\ frame_cell v6 = Ok x6)
    /\ (final_reflection step "flag" = Ok v7 /\ frame_cell v7 = Ok x7)
    /\ (final_reflection step "references_field" = Ok v8 /\ frame_cell v8 = Ok x8).
Proof.
  unfold row_ready.
  destruct (final_reflection step "shortname") as [[| | |s| |]|]; try discriminate.
  destruct (final_answer step) as [[| | |a| |]|]; try discriminate.
  intros Hall.
  repeat (apply forallb_cons_true in Hall as [? Hall]).
  repeat match goal with
         | Hf : match final_reflection step ?f with _ => _ end = true |- _ =>
             destruct (final_reflection step f) as [?|]; [|discriminate];
             match type of Hf with
             | is_ok (frame_cell ?v) = true =>
                 destruct (frame_cell v) eqn:?; [clear Hf|discriminate]
             end
         end.
  eexists s, a, _, _, _, _, _, _, _, _, _, _, _, _. repeat split; eauto.
Qed.

(** The loop body returns. *)
Lemma hypothesis_cycle_ok (acc : string) (w : World Ext) :
  exists acc' w', hypothesis_cycle self acc w = (Ok acc', w').
Proof.
  destruct (graph_stream_ok acc w) as (step & w1 & Hgraph & Hready & _).
  apply row_ready_inv in Hready
    as (s & a & v3 & v4 & v5 & v6 & v7 & v8 & x3 & x4 & x5 & x6 & x7 & x8
        & Hsn & Hans & [H3 F3] & [H4 F4] & [H5 F5] & [H6 F6] & [H7 F7] & [H8 F8]).
  destruct Hcoop as (_ & _ & Hsearch & Hrails & Hguard & Hllm).
  unfold hypothesis_cycle. unfold bind at 1. rewrite Hgraph.
  unfold llm_short_chain. unfold bind, lift, call, concat_row, ret. simpl.
  destruct (Hrails "config" (ext w1)) as (s1 & ->). simpl.
  rewrite Hsn.
  destruct (Hsearch (JStr s) s1) as (docs & s2 & ->). simpl.
  rewrite Hans, H3, H4, H5, H6, H7, H8. simpl.
  match goal with
  | |- context [guardrails_invoke ?q ?st] =>
      destruct (Hguard q st) as (b & s3 & ->)
  end.
  simpl.
  match goal with
  | |- context [llm_short_invoke ?ms ?st] =>
      destruct (Hllm ms st) as (r & s4 & ->)
  end.
  simpl. rewrite F3, F4, F5, F6, F7, F8. simpl. eauto.
Qed.

Lemma hypothesis_cycles_ok (n : nat) :
  forall acc (w : World Ext), exists acc' w', hypothesis_cycles self n acc w = (Ok acc', w').
Proof.
  induction n as [|n IH]; intros acc w; simpl.
  - unfold ret. eauto.
  - destruct (hypothesis_cycle_ok acc w) as (acc1 & w1 & Hfirst).
    unfold bind. rewrite Hfirst. apply IH.
Qed.

(** The session returns. *)
Lemma generate_hypotheses_ok (w : World Ext) :
  exists t, result (generate_hypotheses self) w = Ok t.
Proof.
  unfold result, generate_hypotheses. unfold bind at 1, alloc.
  match goal with
  | |- context [respond (first_responder self) ?l] =>
      destruct (respond_first_ok l
                  [HumanMessage "Come up with new hypotheses in the context."]
                  (mkWorld (ext w)
                     (heap w ++ [[HumanMessage "Come up with new hypotheses in the context."]])
                     (trace w) (hypothesisdf_all w)))
        as (r & w1 & Hinit & _); [simpl; apply list_lookup_middle; reflexivity|]
  end.
  unfold bind at 1. rewrite Hinit. unfold bind at 1, set_table. unfold bind at 1.
  match goal with
  | |- context [hypothesis_cycles self ?n ?a ?w0] =>
      destruct (hypothesis_cycles_ok n a w0) as (acc' & w2 & ->)
  end.
  unfold get_table. simpl. eauto.
Qed.

End Progress.

(** The input of the relation chain in a completed run of the loop body is
    the system message of the generic prompt and the passages retrieved for
    the short name; the short name itself is not part of it. *)
Lemma relation_call_gets_passages_only {Ext : Type} `{Collaborators Ext}
    (self : HypothesisGenerator) (acc : string) (w : World Ext) (acc' : string) :
  result (hypothesis_cycle self acc) w = Ok acc' ->
  exists s docs r events row,
    emitted (hypothesis_cycle self acc) w
    = (events
       ++ [EvLLMShort
             [SystemMessage "You are world class technical documentation writer.";
              HumanMessage (str_of_documents docs)] (Ok r)])%list
    /\ EvSimilaritySearch (JStr s) (Ok docs) ∈ events
    /\ hypothesisdf_all (after (hypothesis_cycle self acc) w)
       = (hypothesisdf_all w ++ [row])%list
    /\ assoc "Hypotheses short description" row = Some (JStr s)
    /\ assoc "Relations to literature" row = Some (JStr (ai_content r)).
Proof.
  intros Hres.
  pose proof (run_eq (hypothesis_cycle self acc) w) as Hrun. rewrite Hres in Hrun.
  apply hypothesis_cycle_inv in Hrun as [Hdone|(e' & tail & ? & _)]; [|discriminate].
  destruct Hdone as [step w1 s a v3 v4 v5 v6 v7 v8 docs b r row gevs
                       _ _ _ _ _ _ _ _ _ _ Htr Hrow Htab _].
  apply completed_row in Hrow as (x3 & x4 & x5 & x6 & x7 & x8 & -> & _).
  rewrite (emitted_app _ _ _ Htr).
  exists s, docs, r.
  eexists (EvGraphStream _ :: gevs ++ [_; _; _])%list. eexists.
  split; [|split; [|split; [exact Htab|by split]]].
  - simpl. by rewrite <- app_assoc.
  - apply elem_of_cons; right. apply elem_of_app; right.
    apply elem_of_cons; right. apply elem_of_cons; by left.
Qed.

(** C3, on a session of one iteration whose hypothesis has the short name
    [KRAS]: the relation chain is called once, with the generic system
    message and the retrieved passages; no message of its input mentions the
    hypothesis, whose row takes the answer as its relation to the
    literature. *)
Theorem relation_call_omits_the_hypothesis :
  result (generate_hypotheses (Stub.generator 2 1)) Stub.one_iteration
  = Ok [[("Hypotheses short description", JStr "KRAS");
         ("Generated Hypotheses", JStr "answer KRAS");
         ("Novelty", JStr "7"); ("What is not novel", JStr "n");
         ("Missing", JStr "m"); ("Superfluous", JStr "s");
         ("Flag", JStr "f"); ("References", JStr "r");
         ("Biohazard", JStr "No.");
         ("Relations to literature", JStr "Related.")]]
  /\ relation_inputs (emitted (generate_hypotheses (Stub.generator 2 1)) Stub.one_iteration)
     = [[SystemMessage "You are world class technical documentation writer.";
         HumanMessage "P1; P2"]]
  /\ forallb (fun m => negb (mentions "KRAS" m))
       (concat (relation_inputs
                  (emitted (generate_hypotheses (Stub.generator 2 1)) Stub.one_iteration)))
     = true.
Proof. vm_compute. auto. Qed.

(** C4, on a session of two iterations: the seed of the second run carries
    the short name of the first row. *)
Lemma known_concepts_accumulate_in_order_witness :
  exists names,
    length names = 1%nat
    /\ Forall2 named_row names
         (take 1 (hypothesisdf_all
                    (after (generate_hypotheses (Stub.generator 2 2)) Stub.two_iterations)))
    /\ [HumanMessage (seed_text +:+ "B")]
       = [HumanMessage (seed_text +:+ String.concat "" names)]
    /\ forall name, name ∈ names ->
         exists pre post, seed_text +:+ String.concat "" names = pre +:+ name +:+ post.
Proof.
  apply (proj1 (known_concepts_accumulate_in_order (Stub.generator 2 2) Stub.two_iterations)
           1%nat).
  vm_compute. reflexivity.
Defined.

(** C5, on a session whose second iteration fails in the tool execution:
    the exception of the retriever is the outcome and the table has the row
    of the first iteration only. *)
Lemma fault_aborts_iteration_and_keeps_earlier_rows_witness :
  result (generate_hypotheses (Stub.generator 2 2)) Stub.fault_in_second
  = Raise (Fault "retriever")
  /\ length (hypothesisdf_all
               (after (generate_hypotheses (Stub.generator 2 2)) Stub.fault_in_second))
     = 1%nat.
Proof.
  destruct (proj1 (fault_aborts_iteration_and_keeps_earlier_rows (Stub.generator 2 2))
              Stub.fault_in_second 19%nat
              (EvRetrievalChain "" "boom" (Raise (Fault "retriever")))
              (Fault "retriever"))
    as (Hres & _ & Hrows); [vm_compute; reflexivity | reflexivity |].
  split; [exact Hres|].
  apply eq_add_S. apply Hrows. vm_compute. discriminate.
Defined.

(** * Further properties of the code *)

(** ** ResponderWithRetries.respond *)

Section Run_shape.
Variable self : ResponderWithRetries.

Lemma run_first history attempt rest last events res ev :
  respond_run self history (attempt :: rest) last events res ->
  events !! 0%nat = Some ev ->
  exists out, ev = EvInvoke (runnable self) history [attempt_tag attempt] out.
Proof.
  intros Hrun Hev. inversion Hrun; subst; simpl in Hev; inversion Hev; subst; eauto.
Qed.

Lemma run_nonempty history attempt rest last events res :
  respond_run self history (attempt :: rest) last events res -> events <> [].
Proof. intros Hrun. by inversion Hrun. Qed.

(** Two consecutive calls: the first returned a rejected response with an
    invocation, the second gets the history of the first extended by this
    response and the corrective message. *)
Lemma run_next history attempts last events res :
  respond_run self history attempts last events res ->
  forall k ev ev',
    events !! k = Some ev ->
    events !! Datatypes.S k = Some ev' ->
    exists messages tags r repr_e tc tcs tags' out',
      ev = EvInvoke (runnable self) messages tags (Ok r)
      /\ v_invoke (validator self) r = Raise (ValidationError repr_e)
      /\ tool_calls r = tc :: tcs
      /\ ev' = EvInvoke (runnable self)
                 (messages ++ [AIMessage r;
                               ToolMessage (corrective_content self repr_e) (tc_id tc)])%list
                 tags' out'.
Proof.
  induction 1; intros k ev ev' Hk Hk'; try (by destruct k).
  destruct k as [|k]; simpl in Hk, Hk'.
  - inversion Hk; subst ev; clear Hk.
    destruct rest as [|attempt' rest'].
    + inversion H1; subst; by rewrite lookup_nil in Hk'.
    + destruct (run_first _ _ _ _ _ _ _ H1 Hk') as [out' ->]. eauto 12.
  - eauto.
Qed.

Lemma run_tags history attempts last events res :
  respond_run self history attempts last events res ->
  forall k ev,
    events !! k = Some ev ->
    exists attempt messages out,
      attempts !! k = Some attempt
      /\ ev = EvInvoke (runnable self) messages [attempt_tag attempt] out.
Proof.
  induction 1; intros k ev Hk; try (by destruct k).
  all: destruct k as [|k]; simpl in Hk; try (by rewrite lookup_nil in Hk).
  all: try (inversion Hk; subst; simpl; eauto 6).
Qed.

(** An exception of the validator that is not [ValidationError] ends the
    run. *)
Lemma run_other_at history attempts last events res :
  respond_run self history attempts last events res ->
  forall k ev resp e,
    events !! k = Some ev ->
    ev_response (runnable self) ev = Some resp ->
    v_invoke (validator self) resp = Raise e ->
    (forall repr_e, e <> ValidationError repr_e) ->
    res = Raise e /\ length events = Datatypes.S k.
Proof.
  induction 1; intros k ev resp e' Hk Hev Hv Hne.
  all: destruct k as [|k]; simpl in Hk; try discriminate.
  all: try (inversion Hk; subst ev; clear Hk).
  all: try (simpl in Hev; discriminate).
  all: try (rewrite ev_response_ok in Hev; inversion Hev; subst; clear Hev).
  all: try congruence.
  - split; [congruence|done].
  - simpl. edestruct IHrespond_run as [-> ->]; eauto.
Qed.

(** What a run returns is the response of its last call, which validates
    or was the response of the last attempt. *)
Lemma run_returns history attempts last events res :
  respond_run self history attempts last events res ->
  forall resp,
    res = Ok resp ->
    (events = [] /\ attempts = [] /\ last = Some resp)
    \/ (exists messages tags,
          list.last events = Some (EvInvoke (runnable self) messages tags (Ok resp))
          /\ (v_invoke (validator self) resp = Ok tt
              \/ (rejects (validator self) resp = true
                  /\ length events = length attempts))).
Proof.
  induction 1; intros resp Hres; try discriminate.
  - inversion Hres; subst. by left.
  - inversion Hres; subst. right. eauto.
  - destruct (IHrespond_run resp Hres)
      as [(-> & -> & Heq)|(messages & tags & Hlast & Hcase)]; right.
    + inversion Heq; subst. eexists _, _. split; [reflexivity|]. right.
      split; [|done]. unfold rejects. by rewrite H.
    + exists messages, tags. split.
      * destruct events as [|ev events]; [discriminate|]. exact Hlast.
      * destruct Hcase as [Hok|[Hrej Hlen]]; [by left|]. right. split; [done|].
        simpl. by rewrite Hlen.
Qed.

End Run_shape.

Section Responder_extras.
Context {Ext : Type} `{Collaborators Ext}.

(** X1.  The first call of [respond] is on the caller's history; every later
    call is on the messages of the call before it followed by the rejected
    response and a tool message that carries the error, the reminder and
    the schema and is correlated to the response's first invocation; the
    calls are tagged [attempt:0], [attempt:1], [attempt:2] in this order. *)
Theorem respond_feeds_back_each_rejection
    (self : ResponderWithRetries) (state : loc) (history : list Message) (w : World Ext) :
  heap w !! state = Some history ->
  (forall ev,
      emitted (respond self state) w !! 0%nat = Some ev ->
      exists out, ev = EvInvoke (runnable self) history ["attempt:0"] out)
  /\ (forall k ev ev',
        emitted (respond self state) w !! k = Some ev ->
        emitted (respond self state) w !! Datatypes.S k = Some ev' ->
        exists messages tags r repr_e tc tcs tags' out',
          ev = EvInvoke (runnable self) messages tags (Ok r)
          /\ v_invoke (validator self) r = Raise (ValidationError repr_e)
          /\ tool_calls r = tc :: tcs
          /\ ev' = EvInvoke (runnable self)
                     (messages
                      ++ [AIMessage r;
                          ToolMessage
                            (repr_e +:+ nl +:+ nl
                             +:+ "Pay close attention to the function schema."
                             +:+ nl +:+ nl +:+ v_schema_json (validator self)
                             +:+ " Respond by fixing all validation errors.")
                            (tc_id tc)])%list
                     tags' out')
  /\ (forall k ev,
        emitted (respond self state) w !! k = Some ev ->
        exists messages out,
          (k < 3)%nat
          /\ ev = EvInvoke (runnable self) messages [attempt_tag k] out).
Proof.
  intros Hl. pose proof (respond_sound self state history w Hl) as Hrun.
  split; [|split].
  - intros ev Hev. by eapply (run_first self) in Hrun.
  - intros k ev ev'. by apply (run_next self _ _ _ _ _ Hrun).
  - intros k ev Hk.
    destruct (run_tags self _ _ _ _ _ Hrun k ev Hk) as (attempt & ms & out & Ha & ->).
    apply lookup_seq in Ha as [-> Hlt]. eauto.
Qed.

(** X2.  Whatever the chain and the validator do, [respond] calls the chain
    at least once and at most three times. *)
Theorem respond_calls_between_one_and_three_times
    (self : ResponderWithRetries) (state : loc) (history : list Message) (w : World Ext) :
  heap w !! state = Some history ->
  (1 <= length (emitted (respond self state) w) <= 3)%nat
  /\ Forall (is_invoke_of (runnable self)) (emitted (respond self state) w).
Proof.
  intros Hl. pose proof (respond_sound self state history w Hl) as Hrun.
  split; [split|].
  - apply (run_nonempty self) in Hrun.
    destruct (emitted (respond self state) w); [done|simpl; lia].
  - by apply (run_length self) in Hrun.
  - by eapply run_invokes.
Qed.

(** X3.  Only a validation error is retried: an exception of the chain, and
    an exception of the validator other than [ValidationError], is the
    outcome of [respond] at once, without a further attempt. *)
Theorem respond_retries_validation_errors_only
    (self : ResponderWithRetries) (state : loc) (history : list Message) (w : World Ext) :
  heap w !! state = Some history ->
  (forall k ev e,
      emitted (respond self state) w !! k = Some ev ->
      ev_fault ev = Some e ->
      result (respond self state) w = Raise e
      /\ length (emitted (respond self state) w) = Datatypes.S k)
  /\ (forall k ev r e,
        emitted (respond self state) w !! k = Some ev ->
        ev_response (runnable self) ev = Some r ->
        v_invoke (validator self) r = Raise e ->
        (forall repr_e, e <> ValidationError repr_e) ->
        result (respond self state) w = Raise e
        /\ length (emitted (respond self state) w) = Datatypes.S k).
Proof.
  intros Hl. split.
  - intros k ev e Hk Hev.
    destruct (orderly_respond eq self state w _ _ (run_eq _ w))
      as [evs [Ht _ _ _ _ Hf]].
    rewrite (emitted_app _ _ _ Ht) in *.
    destruct (Hf k ev e Hk Hev) as [Hr Hlen]. split; [|done].
    destruct (result (respond self state) w); inversion Hr; done.
  - intros k ev r e.
    apply (run_other_at self _ _ _ _ _ (respond_sound self state history w Hl)).
Qed.

(** X4.  What [respond] returns is the response of its last call, and this
    response either validates or is the rejected response of the third
    call: a response that does not validate comes back only after three
    attempts. *)
Theorem respond_returns_the_last_response
    (self : ResponderWithRetries) (state : loc) (history : list Message) (w : World Ext)
    (r : AIMsg) :
  heap w !! state = Some history ->
  result (respond self state) w = Ok r ->
  exists messages tags,
    list.last (emitted (respond self state) w)
    = Some (EvInvoke (runnable self) messages tags (Ok r))
    /\ (v_invoke (validator self) r = Ok tt
        \/ (rejects (validator self) r = true
            /\ length (emitted (respond self state) w) = 3%nat)).
Proof.
  intros Hl Hres. pose proof (respond_sound self state history w Hl) as Hrun.
  destruct (run_returns self _ _ _ _ _ Hrun r Hres)
    as [(_ & Hnil & _)|Hlast]; [discriminate|exact Hlast].
Qed.

End Responder_extras.

(** X1, at a run with one retry. *)
Lemma respond_feeds_back_each_rejection_witness :
  exists messages tags r repr_e tc tcs tags' out',
    Stub.first_call = EvInvoke initial_answer_chain messages tags (Ok r)
    /\ v_invoke Stub.strict_validator r = Raise (ValidationError repr_e)
    /\ tool_calls r = tc :: tcs
    /\ Stub.second_call
       = EvInvoke initial_answer_chain
           (messages
            ++ [AIMessage r;
                ToolMessage
                  (repr_e +:+ nl +:+ nl
                   +:+ "Pay close attention to the function schema."
                   +:+ nl +:+ nl +:+ "{schema}"
                   +:+ " Respond by fixing all validation errors.")
                  (tc_id tc)])%list
           tags' out'.
Proof.
  destruct (respond_feeds_back_each_rejection
              Stub.responder 0%nat Stub.hi Stub.rejected_then_valid eq_refl)
    as (_ & Hnext & _).
  exact (Hnext 0%nat Stub.first_call Stub.second_call eq_refl eq_refl).
Defined.

(** X2, at a run of three rejections. *)
Lemma respond_calls_between_one_and_three_times_witness :
  (1 <= length (emitted (respond Stub.responder 0%nat) Stub.three_rejected) <= 3)%nat
  /\ Forall (is_invoke_of initial_answer_chain)
       (emitted (respond Stub.responder 0%nat) Stub.three_rejected).
Proof.
  apply (respond_calls_between_one_and_three_times
           Stub.responder 0%nat Stub.hi Stub.three_rejected).
  reflexivity.
Defined.

(** X3, at a run whose retry fails in the endpoint, and at a run whose
    validator does not know the invoked schema. *)
Lemma respond_retries_validation_errors_only_witness :
  (result (respond Stub.responder 0%nat) Stub.fault_on_retry = Raise (Fault "timeout")
   /\ length (emitted (respond Stub.responder 0%nat) Stub.fault_on_retry) = 2%nat)
  /\ (result (respond Stub.named_responder 0%nat) Stub.misnamed_first
      = Raise (KeyError "Other")
      /\ length (emitted (respond Stub.named_responder 0%nat) Stub.misnamed_first)
         = 1%nat).
Proof.
  split.
  - eapply (proj1 (respond_retries_validation_errors_only
                     Stub.responder 0%nat Stub.hi Stub.fault_on_retry eq_refl) 1%nat);
      [vm_compute; reflexivity | reflexivity].
  - eapply (proj2 (respond_retries_validation_errors_only
                     Stub.named_responder 0%nat Stub.hi Stub.misnamed_first eq_refl) 0%nat);
      [vm_compute; reflexivity | reflexivity | reflexivity | discriminate].
Defined.

(** X4, at a run of three rejections: the third response comes back. *)
Lemma respond_returns_the_last_response_witness :
  exists messages tags,
    list.last (emitted (respond Stub.responder 0%nat) Stub.three_rejected)
    = Some (EvInvoke initial_answer_chain messages tags (Ok (Stub.bad "C")))
    /\ (v_invoke Stub.strict_validator (Stub.bad "C") = Ok tt
        \/ (rejects Stub.strict_validator (Stub.bad "C") = true
            /\ length (emitted (respond Stub.responder 0%nat) Stub.three_rejected)
               = 3%nat)).
Proof.
  apply (respond_returns_the_last_response
           Stub.responder 0%nat Stub.hi Stub.three_rejected (Stub.bad "C"));
    [reflexivity | vm_compute; reflexivity].
Defined.

(** ** run_queries *)

Section Run_queries_extras.
Context {Ext : Type} `{Collaborators Ext}.

Lemma run_queries_from_results (search_queries : list string) :
  forall results (w : World Ext),
    run_queries_from results search_queries w
    = match run_queries_from [] search_queries w with
      | (Ok rs, w') => (Ok (results ++ rs)%list, w')
      | (Raise e, w') => (Raise e, w')
      end.
Proof.
  induction search_queries as [|q rest IH]; intros results w; simpl.
  - unfold ret. by rewrite app_nil_r.
  - unfold bind, call.
    destruct (retrieval_chain "" q (ext w)) as [[r|e] s']; simpl; [|done].
    rewrite (IH (results ++ [r])%list), (IH [r]).
    destruct (run_queries_from [] rest _) as [[rs|e] w']; [|done].
    by rewrite <- app_assoc.
Qed.

Lemma run_queries_from_app (qs1 qs2 : list string) :
  forall results (w : World Ext),
    run_queries_from results (qs1 ++ qs2) w
    = match run_queries_from results qs1 w with
      | (Ok rs, w') => run_queries_from rs qs2 w'
      | (Raise e, w') => (Raise e, w')
      end.
Proof.
  induction qs1 as [|q rest IH]; intros results w; simpl; [done|].
  unfold bind, call.
  destruct (retrieval_chain "" q (ext w)) as [[r|e] s']; simpl; [|done].
  apply IH.
Qed.

(** X5.  Running a list of queries that is two lists one after the other is
    running the first list and then, when it did not fail, the second from
    where the first left the retriever, the results being those of the
    first followed by those of the second; a failure in the first list
    leaves the second unasked.  The empty list asks nothing and gives no
    result. *)
Theorem run_queries_of_two_lists (qs1 qs2 : list string) (w : World Ext) :
  run_queries (qs1 ++ qs2) w
  = match run_queries qs1 w with
    | (Ok rs1, w1) =>
        match run_queries qs2 w1 with
        | (Ok rs2, w2) => (Ok (rs1 ++ rs2)%list, w2)
        | (Raise e, w2) => (Raise e, w2)
        end
    | (Raise e, w1) => (Raise e, w1)
    end
  /\ run_queries [] w = (Ok [], w).
Proof.
  split; [|done]. unfold run_queries. rewrite run_queries_from_app.
  destruct (run_queries_from [] qs1 w) as [[rs1|e] w1]; [|done].
  apply run_queries_from_results.
Qed.

End Run_queries_extras.

(** ** _get_num_iterations and event_loop *)

Section Count_extras.

Lemma count_until_break_shift (reversed : list Message) :
  forall i, count_until_break reversed i = (i + count_until_break reversed 0)%nat.
Proof.
  induction reversed as [|m rest IH]; intros i; simpl; [lia|].
  destruct (not_tool_or_ai m); [lia|]. rewrite (IH (i + 1)%nat), (IH 1%nat). lia.
Qed.

(** X6.  The count follows the history as it grows: a message of role [ai]
    or [tool] at the end adds one to it, a message of any other role at the
    end puts it back to zero; it is zero on the empty history and never
    more than the number of messages. *)
Theorem get_num_iterations_follows_the_last_message (state : list Message) (m : Message) :
  (ai_or_tool m ->
   _get_num_iterations (state ++ [m]) = Datatypes.S (_get_num_iterations state))
  /\ (~ ai_or_tool m -> _get_num_iterations (state ++ [m]) = 0%nat)
  /\ _get_num_iterations [] = 0%nat
  /\ (_get_num_iterations state <= length state)%nat.
Proof.
  unfold _get_num_iterations. rewrite rev_app_distr. simpl. repeat split.
  - intros Hm. apply not_tool_or_ai_false in Hm. rewrite Hm.
    rewrite count_until_break_shift. lia.
  - intros Hm. apply not_tool_or_ai_true in Hm. by rewrite Hm.
  - rewrite <- (length_rev state). generalize (rev state). intros l.
    induction l as [|x l IH]; simpl; [lia|].
    destruct (not_tool_or_ai x); [lia|]. rewrite count_until_break_shift. lia.
Qed.

(** X7.  The decision of [event_loop] depends on the trailing messages of
    role [ai] or [tool] only: what comes before the last message of another
    role does not matter. *)
Theorem event_loop_looks_at_the_trailing_run_only
    (self : HypothesisGenerator) (pre1 pre2 run : list Message) (m : Message) :
  ~ ai_or_tool m ->
  Forall ai_or_tool run ->
  event_loop self (pre1 ++ m :: run) = event_loop self (pre2 ++ m :: run)
  /\ _get_num_iterations (pre1 ++ m :: run) = length run.
Proof.
  intros Hm Hrun.
  assert (Hcount : forall pre, _get_num_iterations (pre ++ m :: run) = length run).
  { intros pre. replace (pre ++ m :: run)%list with ((pre ++ [m]) ++ run)%list
      by (by rewrite <- app_assoc).
    apply get_num_iterations_run; [done|]. by rewrite last_snoc. }
  split; [|apply Hcount]. unfold event_loop. by rewrite !Hcount.
Qed.

End Count_extras.

(** X6, at a history that ends with a tool message. *)
Lemma get_num_iterations_follows_the_last_message_witness :
  _get_num_iterations ([HumanMessage "seed"; AIMessage (Stub.good "A")]
                       ++ [ToolMessage "r" "call_1"])
  = Datatypes.S (_get_num_iterations [HumanMessage "seed"; AIMessage (Stub.good "A")])
  /\ _get_num_iterations ([AIMessage (Stub.good "A")] ++ [HumanMessage "more"]) = 0%nat.
Proof.
  split.
  - apply (proj1 (get_num_iterations_follows_the_last_message
                    [HumanMessage "seed"; AIMessage (Stub.good "A")]
                    (ToolMessage "r" "call_1"))).
    by right.
  - apply (proj1 (proj2 (get_num_iterations_follows_the_last_message
                           [AIMessage (Stub.good "A")] (HumanMessage "more")))).
    intros [Hm|Hm]; discriminate.
Defined.

(** X7, at two histories with the same trailing run. *)
Lemma event_loop_looks_at_the_trailing_run_only_witness :
  event_loop (Stub.generator 2 1)
    ([] ++ HumanMessage "seed" :: [AIMessage (Stub.good "A"); ToolMessage "r" "call_1"])
  = event_loop (Stub.generator 2 1)
      ([AIMessage (Stub.good "Z"); ToolMessage "old" "call_0"]
       ++ HumanMessage "seed" :: [AIMessage (Stub.good "A"); ToolMessage "r" "call_1"])
  /\ _get_num_iterations
       ([] ++ HumanMessage "seed" :: [AIMessage (Stub.good "A"); ToolMessage "r" "call_1"])
     = 2%nat.
Proof.
  apply (event_loop_looks_at_the_trailing_run_only (Stub.generator 2 1)
           [] [AIMessage (Stub.good "Z"); ToolMessage "old" "call_0"]
           [AIMessage (Stub.good "A"); ToolMessage "r" "call_1"] (HumanMessage "seed")).
  - intros [Hm|Hm]; discriminate.
  - repeat (constructor; [first [by left | by right]|]). constructor.
Defined.

(** ** The graph of setup_graph *)

Section Graph_extras.
Context {Ext : Type} `{Collaborators Ext}.
Local Open Scope list_scope.

Lemma write_last_snoc (pre : list Message) (m : Message) (w : World Ext) :
  write_last (pre ++ [m]) w
  = (Ok tt, mkWorld (ext w) (heap w) (trace w ++ [EvWrite m]) (hypothesisdf_all w)).
Proof. unfold write_last, bind, lift. rewrite py_index_last. reflexivity. Qed.

Lemma event_loop_end self state :
  node_of_name (event_loop self state) = None ->
  (agent_iterations self < Z.of_nat (_get_num_iterations state))%Z.
Proof.
  unfold event_loop.
  destruct (Z.gtb_spec (Z.of_nat (_get_num_iterations state)) (agent_iterations self));
    [lia|discriminate].
Qed.

Lemma write_last_inv (st : list Message) (w : World Ext) w' :
  write_last st w = (Ok tt, w') ->
  exists m, list.last st = Some m /\ trace w' = trace w ++ [EvWrite m].
Proof.
  destruct st as [|m pre _] using rev_ind; [discriminate|].
  rewrite write_last_snoc. intros Heq. inversion Heq; subst. simpl.
  exists m. by rewrite last_snoc.
Qed.

(** What a run of [respond] that returns has done: its calls are
    invocations of its chain, the first on the history it was given, the
    last the one whose response it returns; this response validates or is
    rejected. *)
Lemma respond_returns_last (self : ResponderWithRetries) (state : loc)
    (history : list Message) (w : World Ext) r w' :
  heap w !! state = Some history ->
  respond self state w = (Ok r, w') ->
  exists pre messages tags,
    trace w' = trace w ++ pre ++ [EvInvoke (runnable self) messages tags (Ok r)]
    /\ Forall (is_invoke_of (runnable self)) pre
    /\ (exists out,
          (pre ++ [EvInvoke (runnable self) messages tags (Ok r)]) !! 0%nat
          = Some (EvInvoke (runnable self) history ["attempt:0"] out))
    /\ (v_invoke (validator self) r = Ok tt \/ rejects (validator self) r = true).
Proof.
  intros Hl Hrun. unfold respond in Hrun.
  eapply respond_loop_sound in Hrun as (events & Htr & Hr); [|done].
  destruct (run_returns self _ _ _ _ _ Hr r eq_refl)
    as [(_ & Hnil & _)|(messages & tags & Hlast & Hvalid)]; [discriminate|].
  apply last_Some in Hlast as [pre ->].
  exists pre, messages, tags. split; [done|].
  pose proof (run_invokes self _ _ _ _ _ Hr) as Hinv.
  apply Forall_app in Hinv as [Hinv _]. split; [done|]. split.
  - destruct (pre ++ [EvInvoke (runnable self) messages tags (Ok r)]) as [|ev rest] eqn:He.
    + by destruct pre.
    + destruct (run_first self _ _ _ _ _ _ ev Hr eq_refl) as [out ->]. eauto.
  - destruct Hvalid as [?|[? _]]; auto.
Qed.

Lemma respond_node_inv (r : ResponderWithRetries) (state out : list Message) (w w' : World Ext) :
  (l <- alloc state ;; response <- respond r l ;; ret [AIMessage response]) w = (Ok out, w') ->
  exists response pre messages tags,
    out = [AIMessage response]
    /\ trace w' = trace w ++ pre ++ [EvInvoke (runnable r) messages tags (Ok response)]
    /\ Forall (is_invoke_of (runnable r)) pre
    /\ (exists out',
          (pre ++ [EvInvoke (runnable r) messages tags (Ok response)]) !! 0%nat
          = Some (EvInvoke (runnable r) state ["attempt:0"] out'))
    /\ (v_invoke (validator r) response = Ok tt \/ rejects (validator r) response = true).
Proof.
  intros Hrun. unfold bind at 1, alloc in Hrun.
  bind_cases Hrun; [|discriminate].
  inversion Hk; subst.
  eapply respond_returns_last in Hm as (pre & messages & tags & Htr & Hrest);
    [|simpl; apply list_lookup_middle; reflexivity].
  simpl in Htr. eauto 8.
Qed.

(** A run of the rounds of the graph that returns: the history it was given
    is a prefix of the final one, whose last message is the response the
    revisor returned from the last call of the run. *)
Lemma graph_steps_returns self fuel :
  forall n state (w : World Ext) step w',
    graph_steps self write_last fuel n state w = (Ok step, w') ->
    exists out r pre messages tags,
      step = state ++ out ++ [AIMessage r]
      /\ (agent_iterations self < Z.of_nat (_get_num_iterations step))%Z
      /\ trace w'
         = trace w ++ pre
           ++ [EvInvoke revision_chain messages tags (Ok r); EvWrite (AIMessage r)]
      /\ (v_invoke (revision_validator self) r = Ok tt
          \/ rejects (revision_validator self) r = true).
Proof.
  induction fuel as [|fuel IH]; intros n state w step w' Hrun; [discriminate|].
  rewrite graph_steps_S in Hrun. bind_cases Hrun; [|discriminate].
  bind_cases Hk; [|discriminate].
  pose proof Hm as Hnode.
  apply (orderly_run_node eq) in Hnode as [evs1 [Ht1 _ _ _ _ _]].
  pose proof Hm0 as Hwrite.
  apply (orderly_write_last eq) in Hwrite as [evs2 [Ht2 _ _ _ _ _]].
  assert (Hrec : forall n',
    graph_steps self write_last fuel n' (state ++ a) w1 = (Ok step, w') ->
    exists out r pre messages tags,
      step = state ++ out ++ [AIMessage r]
      /\ (agent_iterations self < Z.of_nat (_get_num_iterations step))%Z
      /\ trace w'
         = trace w ++ pre
           ++ [EvInvoke revision_chain messages tags (Ok r); EvWrite (AIMessage r)]
      /\ (v_invoke (revision_validator self) r = Ok tt
          \/ rejects (revision_validator self) r = true)).
  { intros n' Hsteps.
    apply IH in Hsteps as (out & r & pre & messages & tags & -> & Hend & Htr & Hvalid).
    exists (a ++ out), r, (evs1 ++ evs2 ++ pre), messages, tags.
    rewrite <- !app_assoc in Hend. split; [by rewrite <- !app_assoc|].
    split; [by rewrite <- !app_assoc|]. split; [|done].
    by rewrite Htr, Ht2, Ht1, <- !app_assoc. }
  destruct n; unfold next_node in Hk0; cbv iota in Hk0; try (by eapply Hrec).
  destruct (node_of_name (event_loop self (state ++ a))) as [n'|] eqn:Hnext;
    [by eapply Hrec|].
  apply respond_node_inv in Hm as (r & pre & messages & tags & -> & Htr & _ & _ & Hvalid).
  inversion Hk0; subst step w1. exists [], r, pre, messages, tags. simpl.
  split; [done|]. split; [by apply event_loop_end|]. split; [|done].
  rewrite write_last_snoc in Hm0. inversion Hm0; subst. simpl.
  by rewrite Htr, <- !app_assoc.
Qed.

(** X8.  A run of the graph that returns has kept its input and appended
    to it: first the draft, which is the response the first responder
    returned from invocations of the drafting chain that start on the
    input, last the response the revisor returned from the revision
    chain.  After the input's last message, each of the two is written to
    the page as soon as it is returned; the run ends just after the second
    write, and only when the trailing messages of role [ai] or [tool] are
    more than [agent_iterations]. *)
Theorem graph_run_ends_with_a_revision
    (self : HypothesisGenerator) (input : list Message) (w : World Ext)
    (step : list Message) :
  result (graph_stream self input write_last) w = Ok step ->
  exists m0 d middle r rejected_drafts messages_d tags_d between messages tags,
    step = input ++ AIMessage d :: middle ++ [AIMessage r]
    /\ (agent_iterations self < Z.of_nat (_get_num_iterations step))%Z
    /\ list.last input = Some m0
    /\ emitted (graph_stream self input write_last) w
       = EvGraphStream input :: EvWrite m0
         :: rejected_drafts
         ++ [EvInvoke initial_answer_chain messages_d tags_d (Ok d); EvWrite (AIMessage d)]
         ++ between
         ++ [EvInvoke revision_chain messages tags (Ok r); EvWrite (AIMessage r)]
    /\ Forall (is_invoke_of initial_answer_chain) rejected_drafts
    /\ exists out,
         (rejected_drafts ++ [EvInvoke initial_answer_chain messages_d tags_d (Ok d)])
           !! 0%nat
         = Some (EvInvoke initial_answer_chain input ["attempt:0"] out).
Proof.
  intros Hres.
  pose proof (run_eq (graph_stream self input write_last) w) as Hrun.
  rewrite Hres in Hrun. unfold graph_stream in Hrun at 1.
  unfold bind at 1, emit in Hrun. bind_cases Hrun; [|discriminate].
  destruct a. apply write_last_inv in Hm as (m0 & Hlast & Ht0). simpl in Ht0.
  destruct (recursion_limit self) as [|fuel]; [discriminate|].
  rewrite graph_steps_S in Hk. bind_cases Hk; [|discriminate].
  bind_cases Hk0; [|discriminate].
  match goal with
  | Hn : run_node _ draft _ _ = _ |- _ =>
      unfold run_node in Hn;
      apply respond_node_inv
        in Hn as (d & drafts & messages_d & tags_d & -> & Htd & Hdrafts & Hfirst & _)
  end.
  match goal with
  | Hn : write_last (input ++ [AIMessage d]) _ = _ |- _ =>
      rewrite write_last_snoc in Hn; inversion Hn; subst; clear Hn
  end.
  match goal with
  | Hn : match next_node _ _ _ with _ => _ end _ = _ |- _ =>
      unfold next_node in Hn; cbv iota in Hn;
      apply graph_steps_returns
        in Hn as (middle & r & between & messages & tags & -> & Hend & Htr & _)
  end.
  simpl in Htr, Htd.
  exists m0, d, middle, r, drafts, messages_d, tags_d, between, messages, tags.
  rewrite <- !app_assoc in Hend |- *.
  split; [done|]. split; [done|]. split; [done|]. split; [|by split].
  apply emitted_app. by rewrite Htr, Htd, Ht0, <- !app_assoc.
Qed.

Lemma is_invoke_graph_event c ev : is_invoke_of c ev -> graph_event ev.
Proof. by intros (ms & tags & out & ->). Qed.

Lemma visible_run_queries_from T `{!Reflexive T, !Transitive T} search_queries :
  forall results, orderly graph_event T (run_queries_from results search_queries).
Proof.
  induction search_queries as [|query rest IH]; intros results; simpl.
  - orderly_step.
  - orderly_step; [|apply IH].
    apply orderly_call; [apply _|done|intros [?|?] ?; simpl; congruence|reflexivity].
Qed.

Lemma visible_run_all T `{!Reflexive T, !Transitive T} tcs :
  orderly graph_event T (run_all tcs).
Proof.
  induction tcs as [|tc rest IH]; simpl; [orderly_step|].
  orderly_step; [|orderly_step; [apply IH|orderly_step]].
  unfold run_one, tools_by_name. simpl.
  repeat (case_match; try (apply orderly_raise; apply _)).
  all: simplify_eq.
  all: orderly_step; [orderly_step|].
  all: orderly_step; [apply visible_run_queries_from; apply _|orderly_step].
Qed.

Lemma visible_run_node T `{!Reflexive T, !Transitive T} self n state :
  orderly graph_event T (run_node self n state).
Proof.
  assert (Hrespond : forall r l, orderly graph_event T (respond r l)).
  { intros r l. eapply orderly_weaken; [| |apply (orderly_respond T)]; [|done].
    apply is_invoke_graph_event. }
  destruct n; simpl.
  - orderly_step; [orderly_step|]. orderly_step; [apply Hrespond|orderly_step].
  - unfold tool_node. orderly_step; [orderly_step|].
    destruct a; try orderly_step. apply visible_run_all; apply _.
  - orderly_step; [orderly_step|]. orderly_step; [apply Hrespond|orderly_step].
Qed.

Lemma visible_write_last T `{!Reflexive T, !Transitive T} step :
  orderly graph_event T (write_last step).
Proof.
  unfold write_last. orderly_step; [orderly_step|].
  apply orderly_emit; try apply _; done.
Qed.

Lemma visible_graph_steps T `{!Reflexive T, !Transitive T} self fuel :
  forall n state, orderly graph_event T (graph_steps self write_last fuel n state).
Proof.
  induction fuel as [|fuel IH]; intros n state; simpl; [orderly_step|].
  orderly_step; [apply visible_run_node; apply _|].
  orderly_step; [apply visible_write_last; apply _|].
  destruct (next_node self n (state ++ a)); [apply IH|orderly_step].
Qed.

Lemma graph_stream_events self input (w : World Ext) res w' :
  graph_stream self input write_last w = (res, w') ->
  exists events new_lists,
    trace w' = trace w ++ EvGraphStream input :: events
    /\ Forall graph_event events
    /\ hypothesisdf_all w' = hypothesisdf_all w
    /\ heap w' = heap w ++ new_lists.
Proof.
  unfold graph_stream. intros Hrun. unfold bind at 1, emit in Hrun.
  assert (Hord : orderly graph_event eq
            (write_last input ;;; graph_steps self write_last (recursion_limit self) draft input)).
  { orderly_step; [apply visible_write_last; apply _|].
    apply visible_graph_steps; apply _. }
  apply Hord in Hrun as [evs [Ht He [hs Hh] HT _ _]]. simpl in *.
  exists evs, hs. by rewrite Ht, <- app_assoc.
Qed.

(** X9.  The calls of a run of the graph are invocations of the two actor
    chains and questions to the retrieval chain, always with an empty chat
    history; it is through these questions that the vector store is
    searched, by the retriever the retrieval chain is built on.  Besides
    them the run only writes to the page: it makes no call of
    [db.similarity_search], of the guardrails chain or of [llm_short], does
    not load the rails configuration, leaves the session table as it is and
    the list objects that existed before it untouched. *)
Theorem graph_run_calls_the_actors_and_the_retriever_only
    (self : HypothesisGenerator) (input : list Message) (w : World Ext) :
  exists events new_lists,
    emitted (graph_stream self input write_last) w = EvGraphStream input :: events
    /\ Forall graph_event events
    /\ hypothesisdf_all (after (graph_stream self input write_last) w)
       = hypothesisdf_all w
    /\ heap (after (graph_stream self input write_last) w) = heap w ++ new_lists.
Proof.
  pose proof (run_eq (graph_stream self input write_last) w) as Hrun.
  apply graph_stream_events in Hrun as (events & hs & Htr & Hvis & Htab & Hheap).
  exists events, hs. split; [by apply emitted_app|done].
Qed.

Lemma py_index_elem {A} (xs : list A) (i : Z) (x : A) :
  py_index xs i = Ok x -> x ∈ xs.
Proof.
  unfold py_index. repeat case_match; intros Heq; inversion Heq; subst.
  all: by eapply list_elem_of_lookup_2.
Qed.

(** The tool node on a history whose last message carries one invocation
    gives one tool message. *)
Lemma tool_node_single (state : list Message) (w : World Ext) out w' :
  tool_node state w = (Ok out, w') ->
  (forall r, AIMessage r ∈ state -> length (tool_calls r) = 1%nat) ->
  exists m, out = [m] /\ ai_or_tool m.
Proof.
  unfold tool_node. intros Hrun Hone. bind_cases Hrun; [|discriminate].
  inversion Hm; subst. apply py_index_elem in H1.
  destruct a as [| r | |]; try discriminate.
  specialize (Hone r H1).
  destruct (tool_calls r) as [|tc [|tc' tcs]]; try discriminate.
  simpl in Hk. bind_cases Hk; [|discriminate].
  inversion Hk0; subst.
  unfold run_one in Hm0. destruct (lookup_tool _ _); [|discriminate].
  bind_cases Hm0; [|discriminate]. bind_cases Hk; [|discriminate].
  inversion Hk1; subst. eexists. split; [reflexivity|]. by right.
Qed.

Lemma graph_rounds_count self (seed : Message) fuel :
  forall run (w : World Ext) step w',
    ~ ai_or_tool seed ->
    Forall ai_or_tool run ->
    graph_steps self write_last fuel execute_tools (seed :: run) w = (Ok step, w') ->
    (forall r, AIMessage r ∈ step -> length (tool_calls r) = 1%nat) ->
    Z.of_nat (length step)
    = (1 + Z.of_nat (length run)
       + 2 * Z.max 1 ((agent_iterations self - Z.of_nat (length run)) / 2 + 1))%Z.
Proof.
  induction fuel as [fuel IH] using lt_wf_ind.
  intros run w step w' Hseed Hrun Hsteps Hone.
  destruct fuel as [|[|fuel]]; [discriminate| |].
  { rewrite graph_steps_S in Hsteps. bind_cases Hsteps; [|discriminate].
    bind_cases Hk; [|discriminate]. discriminate. }
  pose proof Hsteps as Hshape.
  apply graph_steps_returns in Hshape as (out & r & _ & _ & _ & Hstep & _).
  rewrite graph_steps_S in Hsteps. bind_cases Hsteps; [|discriminate].
  bind_cases Hk; [|discriminate]. unfold next_node in Hk0; cbv iota in Hk0.
  apply tool_node_single in Hm as (m & -> & Hm).
  2:{ intros r' Hr'. apply Hone. rewrite Hstep. apply elem_of_app. by left. }
  clear Hstep out r.
  rewrite graph_steps_S in Hk0. bind_cases Hk0; [|discriminate].
  bind_cases Hk; [|discriminate].
  match goal with
  | Hn : run_node _ revise _ _ = _ |- _ =>
      unfold run_node in Hn; apply respond_node_inv in Hn as (r2 & _ & _ & _ & -> & _)
  end.
  match goal with
  | Hn : match next_node _ _ _ with _ => _ end _ = _ |- _ => rename Hn into Hrest
  end.
  assert (Hshape : (((seed :: run) ++ [m]) ++ [AIMessage r2])
                   = [seed] ++ (run ++ [m; AIMessage r2]))
    by (simpl; by rewrite <- !app_assoc).
  assert (Hrun' : Forall ai_or_tool (run ++ [m; AIMessage r2]))
    by (apply Forall_app; split; [done|];
        constructor; [done|]; constructor; [by left|constructor]).
  destruct (revise_next self [seed] _ Hrun' Hseed) as [[Hlt Hnext]|[Hle Hnext]];
    rewrite <- Hshape in Hnext; rewrite Hnext in Hrest.
  - inversion Hrest; subst step. simpl. rewrite !length_app in *. simpl in *.
    Z.to_euclidean_division_equations; lia.
  - change (((seed :: run) ++ [m]) ++ [AIMessage r2])
      with (seed :: (run ++ [m]) ++ [AIMessage r2]) in Hrest.
    rewrite <- app_assoc in Hrest. simpl in Hrest.
    eapply (IH fuel) in Hrest; auto.
    rewrite Hrest. rewrite !length_app in *. simpl in *.
    Z.to_euclidean_division_equations; lia.
Qed.

(** X10.  [agent_iterations] bounds the trailing messages, not the
    revisions.  When every response of a run carries exactly one invocation
    (so that the tool node answers it with one tool message), a run from a
    one-message seed of another role ends with the seed, the draft and
    [max 1 ((agent_iterations + 1) / 2)] pairs of a tool message and a
    revision. *)
Theorem agent_iterations_bounds_the_trailing_run_not_the_revisions
    (self : HypothesisGenerator) (seed : Message) (w : World Ext) (step : list Message) :
  ~ ai_or_tool seed ->
  result (graph_stream self [seed] write_last) w = Ok step ->
  (forall r, AIMessage r ∈ step -> length (tool_calls r) = 1%nat) ->
  Z.of_nat (length step) = (2 + 2 * Z.max 1 ((agent_iterations self + 1) / 2))%Z.
Proof.
  intros Hseed Hres Hone.
  pose proof (run_eq (graph_stream self [seed] write_last) w) as Hrun.
  rewrite Hres in Hrun. unfold graph_stream in Hrun at 1.
  unfold bind at 1, emit in Hrun. bind_cases Hrun; [|discriminate].
  destruct (recursion_limit self) as [|fuel]; [discriminate|].
  rewrite graph_steps_S in Hk. bind_cases Hk; [|discriminate].
  bind_cases Hk0; [|discriminate].
  match goal with
  | Hn : run_node _ draft _ _ = _ |- _ =>
      unfold run_node in Hn; apply respond_node_inv in Hn as (d & _ & _ & _ & -> & _)
  end.
  match goal with
  | Hn : match next_node _ _ _ with _ => _ end _ = _ |- _ => rename Hn into Hrest
  end.
  unfold next_node in Hrest; cbv iota in Hrest.
  change ([seed] ++ [AIMessage d]) with (seed :: [AIMessage d]) in Hrest.
  apply graph_rounds_count in Hrest; auto.
  - rewrite Hrest. simpl length. Z.to_euclidean_division_equations; lia.
  - repeat constructor.
Qed.

End Graph_extras.

(** X8, at a run of a draft and one revision. *)
Lemma graph_run_ends_with_a_revision_witness :
  exists m0 d middle r rejected_drafts messages_d tags_d between messages tags,
    [HumanMessage "seed"; AIMessage (Stub.good "A");
     ToolMessage "about q1; about q2" "call_1"; AIMessage (Stub.good "B")]
    = (Stub.seed ++ AIMessage d :: middle ++ [AIMessage r])%list
    /\ (2 < Z.of_nat (_get_num_iterations
                        [HumanMessage "seed"; AIMessage (Stub.good "A");
                         ToolMessage "about q1; about q2" "call_1";
                         AIMessage (Stub.good "B")]))%Z
    /\ list.last Stub.seed = Some m0
    /\ emitted (graph_stream (Stub.generator 2 1) Stub.seed write_last)
         Stub.draft_and_revision
       = (EvGraphStream Stub.seed :: EvWrite m0
          :: rejected_drafts
          ++ [EvInvoke initial_answer_chain messages_d tags_d (Ok d); EvWrite (AIMessage d)]
          ++ between
          ++ [EvInvoke revision_chain messages tags (Ok r); EvWrite (AIMessage r)])%list
    /\ Forall (is_invoke_of initial_answer_chain) rejected_drafts
    /\ exists out,
         (rejected_drafts ++ [EvInvoke initial_answer_chain messages_d tags_d (Ok d)])%list
           !! 0%nat
         = Some (EvInvoke initial_answer_chain Stub.seed ["attempt:0"] out).
Proof.
  apply (graph_run_ends_with_a_revision (Stub.generator 2 1) Stub.seed
           Stub.draft_and_revision).
  vm_compute. reflexivity.
Defined.

(** X10, with [agent_iterations = 2]: one revision. *)
Lemma agent_iterations_bounds_the_trailing_run_not_the_revisions_witness :
  Z.of_nat (length [HumanMessage "seed"; AIMessage (Stub.good "A");
                    ToolMessage "about q1; about q2" "call_1"; AIMessage (Stub.good "B")])
  = (2 + 2 * Z.max 1 ((2 + 1) / 2))%Z.
Proof.
  apply (agent_iterations_bounds_the_trailing_run_not_the_revisions
           (Stub.generator 2 1) (HumanMessage "seed") Stub.draft_and_revision).
  - intros [Hm|Hm]; discriminate.
  - vm_compute. reflexivity.
  - intros r Hr. repeat (apply elem_of_cons in Hr as [Hr|Hr]; [by inversion Hr|]).
    by apply elem_of_nil in Hr.
Defined.

(** ** generate_hypotheses *)

Section Session_extras.
Context {Ext : Type} `{Collaborators Ext}.
Local Open Scope list_scope.

Lemma blind_bind {A B} (m : M Ext A) (f : A -> M Ext B) :
  table_blind m -> (forall a, table_blind (f a)) -> table_blind (bind m f).
Proof.
  intros Hm Hf w t. unfold bind. rewrite Hm.
  destruct (m w) as [[a|e] w1]; simpl; [apply Hf|reflexivity].
Qed.

Lemma blind_deref l : table_blind (deref (Ext := Ext) l).
Proof. intros w t. unfold deref. simpl. by destruct (heap w !! l). Qed.

Lemma blind_call {A} (f : Ext -> Res A * Ext) (ev : Res A -> Event) :
  table_blind (call f ev).
Proof. intros w t. unfold call. simpl. by destruct (f (ext w)). Qed.

Lemma blind_respond_loop self attempts :
  forall state last, table_blind (respond_loop (Ext := Ext) self attempts state last).
Proof.
  induction attempts as [|attempt rest IH]; intros state last; simpl.
  - by destruct last.
  - apply blind_bind.
    { apply blind_bind; [apply blind_deref|intros ?; apply blind_call]. }
    intros response. destruct (v_invoke (validator self) response) as [|[]]; try done.
    apply blind_bind; [done|intros first_call].
    apply blind_bind; [|intros ?; apply IH].
    apply blind_bind; [apply blind_deref|done].
Qed.

Lemma generate_unfold self (w : World Ext) :
  generate_hypotheses self w
  = match respond (first_responder self) (length (heap w))
            (mkWorld (ext w)
               (heap w ++ [[HumanMessage "Come up with new hypotheses in the context."]])
               (trace w) (hypothesisdf_all w)) with
    | (Ok _, w1) =>
        match hypothesis_cycles self (Z.to_nat (iterations self)) "" (with_table [] w1) with
        | (Ok _, w2) => (Ok (hypothesisdf_all w2), w2)
        | (Raise e, w2) => (Raise e, w2)
        end
    | (Raise e, w1) => (Raise e, w1)
    end.
Proof.
  unfold generate_hypotheses, bind, alloc, set_table, get_table, with_table.
  destruct (respond _ _ _) as [[r|e] w1]; [|done].
  by destruct (hypothesis_cycles _ _ _ _) as [[acc|e] w2].
Qed.

(** What [generate_hypotheses] does from a world and from the same world
    with another table. *)
Lemma generate_from_table self (w : World Ext) (t : Table) :
  (exists e w1,
     generate_hypotheses self w = (Raise e, w1)
     /\ generate_hypotheses self (with_table t w) = (Raise e, with_table t w1)
     /\ Forall not_stream (drop (length (trace w)) (trace w1)))
  \/ (generate_hypotheses self (with_table t w) = generate_hypotheses self w
      /\ (stream_inputs (emitted (generate_hypotheses self) w) <> []
          \/ is_ok (result (generate_hypotheses self) w) = true)).
Proof.
  pose proof (fun l => blind_respond_loop (first_responder self) (seq 0 3) l None) as Hblind.
  unfold emitted, result, after. rewrite !generate_unfold.
  set (l := length (heap w)).
  set (w0 := mkWorld (ext w)
               (heap w ++ [[HumanMessage "Come up with new hypotheses in the context."]])
               (trace w) (hypothesisdf_all w)).
  change (respond (first_responder self) (length (heap (with_table t w)))
            (mkWorld (ext (with_table t w))
               (heap (with_table t w)
                ++ [[HumanMessage "Come up with new hypotheses in the context."]])
               (trace (with_table t w)) (hypothesisdf_all (with_table t w))))
    with (respond (first_responder self) l (with_table t w0)).
  assert (Hfirst_blind : respond (first_responder self) l (with_table t w0)
                         = (fst (respond (first_responder self) l w0),
                            with_table t (snd (respond (first_responder self) l w0))))
    by apply (Hblind l w0 t).
  rewrite Hfirst_blind.
  destruct (respond (first_responder self) l w0) as [[r|e] w1] eqn:Hfirst; simpl.
  - right. split; [reflexivity|].
    apply (orderly_respond_graph eq (first_responder self) l) in Hfirst
      as [evs0 [Ht0 He0 _ _ _ _]].
    destruct (hypothesis_cycles self (Z.to_nat (iterations self)) "" (with_table [] w1))
      as [[acc|e] w2] eqn:Hloop; [by right|left].
    apply cycles_raise_inv in Hloop as (j & acc_j & w_j & Hj & Hpre & Hfail).
    apply cycles_ok_inv in Hpre as (names & rows & evs & _ & _ & _ & Htr & _).
    apply hypothesis_cycle_inv in Hfail as [Hdone|(e' & tail & _ & _ & Htr' & _)].
    { apply completed_named_row in Hdone as (? & ? & ? & ? & _). discriminate. }
    simpl. rewrite Htr', Htr. simpl. rewrite Ht0. simpl in *.
    rewrite <- !app_assoc, drop_app_length, !stream_inputs_app. simpl.
    intros Hnil. apply app_eq_nil in Hnil as [_ Hnil].
    apply app_eq_nil in Hnil as [_ Hnil]. discriminate.
  - left. exists e, w1. split; [reflexivity|]. split; [reflexivity|].
    apply (orderly_respond_graph eq (first_responder self) l) in Hfirst
      as [evs0 [Ht0 He0 _ _ _ _]].
    simpl in Ht0. by rewrite Ht0, drop_app_length.
Qed.

(** X11.  A session does not depend on the table an earlier session left:
    its outcome and its calls are the same whatever that table is.  The
    table is emptied once the call before the loop has returned, so the
    table after the session holds rows of this session only; when that call
    raises, the session ends before the reset and the earlier table stays
    as it was. *)
Theorem session_does_not_depend_on_the_earlier_table
    (self : HypothesisGenerator) (w : World Ext) (t : Table) :
  result (generate_hypotheses self) (with_table t w) = result (generate_hypotheses self) w
  /\ emitted (generate_hypotheses self) (with_table t w)
     = emitted (generate_hypotheses self) w
  /\ (stream_inputs (emitted (generate_hypotheses self) w) <> []
      \/ is_ok (result (generate_hypotheses self) w) = true ->
      hypothesisdf_all (after (generate_hypotheses self) (with_table t w))
      = hypothesisdf_all (after (generate_hypotheses self) w))
  /\ (stream_inputs (emitted (generate_hypotheses self) w) = [] ->
      is_ok (result (generate_hypotheses self) w) = false ->
      hypothesisdf_all (after (generate_hypotheses self) (with_table t w)) = t).
Proof.
  destruct (generate_from_table self w t)
    as [(e & w1 & Hrun & Hrun' & Hns)|[Hsame Hstarted]].
  - unfold result, emitted, after. rewrite Hrun, Hrun'. simpl.
    split; [done|]. split; [done|]. split; [|done].
    rewrite (stream_inputs_none _ Hns). by intros [?|?].
  - unfold result, emitted, after. rewrite Hsame. simpl.
    split; [done|]. split; [done|]. split; [done|].
    intros Hnil Hraise. fold (emitted (generate_hypotheses self) w) in Hstarted.
    fold (result (generate_hypotheses self) w) in Hstarted.
    unfold result, emitted, after in Hnil, Hraise, Hstarted.
    destruct Hstarted as [Hs|Hs]; congruence.
Qed.

(** X12.  Every session begins with a call of the first responder on the
    bare request, before any run of the graph.  With [iterations] zero or
    negative this is all the session does: at most three invocations of the
    drafting chain, and the empty table when it returns. *)
Theorem session_begins_with_a_call_before_the_loop
    (self : HypothesisGenerator) (w : World Ext) :
  (exists out rest,
     emitted (generate_hypotheses self) w
     = EvInvoke initial_answer_chain
         [HumanMessage "Come up with new hypotheses in the context."] ["attempt:0"] out
       :: rest)
  /\ ((iterations self <= 0)%Z ->
      Forall (is_invoke_of initial_answer_chain) (emitted (generate_hypotheses self) w)
      /\ (length (emitted (generate_hypotheses self) w) <= 3)%nat
      /\ forall t, result (generate_hypotheses self) w = Ok t -> t = []).
Proof.
  unfold emitted, result, after. rewrite generate_unfold.
  set (l := length (heap w)).
  set (w0 := mkWorld (ext w)
               (heap w ++ [[HumanMessage "Come up with new hypotheses in the context."]])
               (trace w) (hypothesisdf_all w)).
  destruct (respond (first_responder self) l w0) as [res w1] eqn:Hfirst.
  unfold respond in Hfirst.
  eapply respond_loop_sound in Hfirst as (events & Htr & Hrun);
    [|simpl; apply list_lookup_middle; reflexivity].
  simpl in Htr, Hrun.
  assert (Hhead : exists out rest,
            events = EvInvoke initial_answer_chain
                       [HumanMessage "Come up with new hypotheses in the context."]
                       ["attempt:0"] out :: rest).
  { destruct events as [|ev rest].
    - by apply (run_nonempty (first_responder self)) in Hrun.
    - destruct (run_first (first_responder self) _ _ _ _ _ _ ev Hrun eq_refl) as [out ->].
      eauto. }
  destruct Hhead as (out & rest & Hevents).
  pose proof (run_length _ _ _ _ _ _ Hrun) as Hlen.
  pose proof (run_invokes _ _ _ _ _ _ Hrun) as Hinv.
  destruct res as [r|e].
  - split.
    + destruct (hypothesis_cycles _ _ _ _) as [res2 w2] eqn:Hloop.
      apply orderly_hypothesis_cycles in Hloop as [evs [Ht _ _ _ _ _]]. simpl in Ht.
      exists out, (rest ++ evs).
      replace (trace (let (r0, w3) := (res2, w2) in
                      match r0 with
                      | Ok _ => (Ok (hypothesisdf_all w3), w3)
                      | Raise e => (Raise e, w3)
                      end).2) with (trace w2) by (by destruct res2).
      by rewrite Ht, Htr, Hevents, <- app_assoc, drop_app_length.
    + intros Hn. replace (Z.to_nat (iterations self)) with 0%nat by lia. simpl.
      rewrite Htr, drop_app_length. split; [done|]. split; [done|].
      intros t Ht. by inversion Ht.
  - simpl. rewrite Htr, drop_app_length. split; [subst events; eauto|].
    intros _. split; [done|]. split; [done|]. discriminate.
Qed.

End Session_extras.

(** X11, at a session of two iterations and at a session whose first call
    fails. *)
Lemma session_does_not_depend_on_the_earlier_table_witness :
  hypothesisdf_all
    (after (generate_hypotheses (Stub.generator 2 2))
       (with_table Stub.old_table Stub.two_iterations))
  = hypothesisdf_all (after (generate_hypotheses (Stub.generator 2 2)) Stub.two_iterations)
  /\ hypothesisdf_all
       (after (generate_hypotheses (Stub.generator 2 2))
          (with_table Stub.old_table Stub.silent))
     = Stub.old_table.
Proof.
  split.
  - apply (proj1 (proj2 (proj2 (session_does_not_depend_on_the_earlier_table
                                  (Stub.generator 2 2) Stub.two_iterations Stub.old_table)))).
    right. vm_compute. reflexivity.
  - apply (proj2 (proj2 (proj2 (session_does_not_depend_on_the_earlier_table
                                  (Stub.generator 2 2) Stub.silent Stub.old_table))));
      vm_compute; reflexivity.
Defined.

(** X12, at a session of no iteration. *)
Lemma session_begins_with_a_call_before_the_loop_witness :
  Forall (is_invoke_of initial_answer_chain)
    (emitted (generate_hypotheses (Stub.generator 2 0)) Stub.one_iteration)
  /\ (length (emitted (generate_hypotheses (Stub.generator 2 0)) Stub.one_iteration) <= 3)%nat
  /\ forall t,
       result (generate_hypotheses (Stub.generator 2 0)) Stub.one_iteration = Ok t -> t = [].
Proof.
  apply (proj2 (session_begins_with_a_call_before_the_loop
                  (Stub.generator 2 0) Stub.one_iteration)).
  simpl. lia.
Defined.

Section Cycle_extras.
Context {Ext : Type} `{Collaborators Ext}.
Local Open Scope list_scope.

Local Arguments py_str_add : simpl never.
Local Arguments final_reflection : simpl never.
Local Arguments final_answer : simpl never.
Local Arguments DataFrame : simpl never.

(** A run of the loop body that returns: the run of the graph, then the
    four calls, then the row. *)
Lemma hypothesis_cycle_returns self acc (w : World Ext) acc' w' :
  hypothesis_cycle self acc w = (Ok acc', w') ->
  exists step w1 s a docs b r row,
    graph_stream self [HumanMessage (seed_text +:+ acc)] write_last w = (Ok step, w1)
    /\ final_reflection step "shortname" = Ok (JStr s)
    /\ final_answer step = Ok (JStr a)
    /\ trace w'
       = trace w1
         ++ [EvRailsConfig "config" (Ok tt);
             EvSimilaritySearch (JStr s) (Ok docs);
             EvGuardrails ("Does the following contain any restricted topics?: " +:+ a)
               (Ok b);
             EvLLMShort
               [SystemMessage "You are world class technical documentation writer.";
                HumanMessage (str_of_documents docs)] (Ok r)]
    /\ hypothesisdf_all w' = hypothesisdf_all w1 ++ [row]
    /\ assoc "Hypotheses short description" row = Some (JStr s)
    /\ assoc "Generated Hypotheses" row = Some (JStr a)
    /\ assoc "Biohazard" row = Some (JStr b)
    /\ assoc "Relations to literature" row = Some (JStr (ai_content r)).
Proof.
  unfold hypothesis_cycle. intros Hrun. bind_cases Hrun; [|discriminate].
  rename a into step.
  unfold llm_short_chain in Hk.
  unfold bind, lift, call, concat_row, ret in Hk. simpl in Hk.
  rewrite !append_nil_r in Hk.
  destruct (rails_from_path "config" (ext w0)) as [[[]|e] s1] eqn:Hrails;
    simpl in Hk; [|discriminate].
  destruct (final_reflection step "shortname") as [shortname|e] eqn:Hsn; [|discriminate].
  destruct (similarity_search shortname s1) as [[docs|e] s2] eqn:Hsearch;
    simpl in Hk; [|discriminate].
  destruct (py_str_add _ shortname) as [sys|e] eqn:Hsys; [|discriminate].
  apply py_str_add_ok in Hsys as (s & -> & _).
  destruct (final_answer step) as [answer|e] eqn:Hans; [|discriminate].
  destruct (final_reflection step "noveltyscore") as [v3|e] eqn:H3; [|discriminate].
  destruct (final_reflection step "notnovel") as [v4|e] eqn:H4; [|discriminate].
  destruct (final_reflection step "missing") as [v5|e] eqn:H5; [|discriminate].
  destruct (final_reflection step "superfluous") as [v6|e] eqn:H6; [|discriminate].
  destruct (final_reflection step "flag") as [v7|e] eqn:H7; [|discriminate].
  destruct (final_reflection step "references_field") as [v8|e] eqn:H8; [|discriminate].
  destruct (py_str_add _ answer) as [question|e] eqn:Hq; [|discriminate].
  apply py_str_add_ok in Hq as (a & -> & ->).
  destruct (guardrails_invoke _ s2) as [[b|e] s3] eqn:Hguard; simpl in Hk; [|discriminate].
  rewrite ?append_nil_r in Hk.
  destruct (llm_short_invoke _ s3) as [[r|e] s4] eqn:Hllm; simpl in Hk; [|discriminate].
  destruct (DataFrame _) as [row|e] eqn:Hrow; [|discriminate].
  apply completed_row in Hrow as (x3 & x4 & x5 & x6 & x7 & x8 & -> & _).
  inversion Hk; subst; clear Hk. simpl.
  eexists step, w0, s, a, docs, b, r, _.
  split; [done|]. split; [done|]. split; [done|].
  split; [by rewrite <- !app_assoc|]. by repeat split.
Qed.

(** X13.  After the run of the graph a completed iteration makes four
    calls, in this order and each once: it loads the rails configuration,
    asks the vector store for the short name, asks the guardrails chain the
    fixed question followed by the answer, and asks [llm_short].  The row
    keeps the short name and the answer, the verdict of the guardrails
    chain as returned and the text of [llm_short] as returned: the verdict
    is not inspected, the row is appended whatever it says. *)
Theorem annotations_are_stored_as_returned
    (self : HypothesisGenerator) (acc : string) (w : World Ext) (acc' : string) :
  result (hypothesis_cycle self acc) w = Ok acc' ->
  exists s a b docs r events row,
    emitted (hypothesis_cycle self acc) w
    = EvGraphStream [HumanMessage (seed_text +:+ acc)] :: events
      ++ [EvRailsConfig "config" (Ok tt);
          EvSimilaritySearch (JStr s) (Ok docs);
          EvGuardrails ("Does the following contain any restricted topics?: " +:+ a) (Ok b);
          EvLLMShort
            [SystemMessage "You are world class technical documentation writer.";
             HumanMessage (str_of_documents docs)] (Ok r)]
    /\ Forall graph_event events
    /\ hypothesisdf_all (after (hypothesis_cycle self acc) w) = hypothesisdf_all w ++ [row]
    /\ assoc "Hypotheses short description" row = Some (JStr s)
    /\ assoc "Generated Hypotheses" row = Some (JStr a)
    /\ assoc "Biohazard" row = Some (JStr b)
    /\ assoc "Relations to literature" row = Some (JStr (ai_content r)).
Proof.
  intros Hres.
  pose proof (run_eq (hypothesis_cycle self acc) w) as Hrun. rewrite Hres in Hrun.
  apply hypothesis_cycle_returns in Hrun
    as (step & w1 & s & a & docs & b & r & row & Hgraph & _ & _ & Htr & Htab & Hrow).
  apply graph_stream_events in Hgraph as (events & _ & Htr1 & Hvis & Htab1 & _).
  exists s, a, b, docs, r, events, row.
  split; [|by rewrite Htab, Htab1].
  apply emitted_app. by rewrite Htr, Htr1, <- app_assoc.
Qed.

(** X14.  When the short name cannot be read from the final message of the
    run of the graph (no invocation, no [reflection], no [shortname]), the
    iteration ends right after loading the rails configuration, with the
    error of the subscript (or that of the loading); the vector store, the
    guardrails chain and [llm_short] are not called and no row is added. *)
Theorem iteration_stops_when_the_short_name_is_missing
    (self : HypothesisGenerator) (acc : string) (w : World Ext)
    (step : list Message) (e : exn) :
  result (graph_stream self [HumanMessage (seed_text +:+ acc)] write_last) w = Ok step ->
  final_reflection step "shortname" = Raise e ->
  exists out,
    emitted (hypothesis_cycle self acc) w
    = emitted (graph_stream self [HumanMessage (seed_text +:+ acc)] write_last) w
      ++ [EvRailsConfig "config" out]
    /\ result (hypothesis_cycle self acc) w
       = match out with Ok _ => Raise e | Raise e' => Raise e' end
    /\ hypothesisdf_all (after (hypothesis_cycle self acc) w) = hypothesisdf_all w.
Proof.
  intros Hres Hsn.
  pose proof (run_eq (graph_stream self [HumanMessage (seed_text +:+ acc)] write_last) w)
    as Hgraph.
  rewrite Hres in Hgraph.
  destruct (graph_stream_events _ _ _ _ _ Hgraph) as (events & _ & Htr & _ & Htab & _).
  pose proof (run_eq (hypothesis_cycle self acc) w) as Hrun.
  unfold hypothesis_cycle in Hrun at 1. unfold bind at 1 in Hrun. rewrite Hgraph in Hrun.
  unfold bind, call, lift in Hrun. simpl in Hrun.
  unfold emitted at 2. rewrite Htr, drop_app_length.
  destruct (rails_from_path "config" _) as [[u|e'] s1]; simpl in Hrun.
  - rewrite Hsn in Hrun. inversion Hrun as [[Hr Ha]]. exists (Ok u).
    unfold emitted. rewrite <- Ha. simpl.
    by rewrite Htr, <- app_assoc, drop_app_length, Htab.
  - inversion Hrun as [[Hr Ha]]. exists (Raise e').
    unfold emitted. rewrite <- Ha. simpl.
    by rewrite Htr, <- app_assoc, drop_app_length, Htab.
Qed.

(** X15.  When the final message binds the short name to a value that is
    not text, the vector store is still asked for that value; unless a call
    fails before, the iteration then raises [TypeError] at the
    concatenation that builds the relation prompt.  The guardrails chain
    and [llm_short] are not called and no row is added. *)
Theorem iteration_stops_when_the_short_name_is_not_text
    (self : HypothesisGenerator) (acc : string) (w : World Ext)
    (step : list Message) (v : Json) :
  result (graph_stream self [HumanMessage (seed_text +:+ acc)] write_last) w = Ok step ->
  final_reflection step "shortname" = Ok v ->
  (forall s, v <> JStr s) ->
  exists tail,
    emitted (hypothesis_cycle self acc) w
    = emitted (graph_stream self [HumanMessage (seed_text +:+ acc)] write_last) w ++ tail
    /\ ((exists e, tail = [EvRailsConfig "config" (Raise e)]
                   /\ result (hypothesis_cycle self acc) w = Raise e)
        \/ (exists e, tail = [EvRailsConfig "config" (Ok tt); EvSimilaritySearch v (Raise e)]
                      /\ result (hypothesis_cycle self acc) w = Raise e)
        \/ (exists docs,
              tail = [EvRailsConfig "config" (Ok tt); EvSimilaritySearch v (Ok docs)]
              /\ result (hypothesis_cycle self acc) w = Raise TypeError))
    /\ hypothesisdf_all (after (hypothesis_cycle self acc) w) = hypothesisdf_all w.
Proof.
  intros Hres Hsn Hv.
  pose proof (run_eq (graph_stream self [HumanMessage (seed_text +:+ acc)] write_last) w)
    as Hgraph.
  rewrite Hres in Hgraph.
  destruct (graph_stream_events _ _ _ _ _ Hgraph) as (events & _ & Htr & _ & Htab & _).
  pose proof (run_eq (hypothesis_cycle self acc) w) as Hrun.
  unfold hypothesis_cycle in Hrun at 1. unfold bind at 1 in Hrun. rewrite Hgraph in Hrun.
  unfold bind, call, lift in Hrun. simpl in Hrun.
  unfold emitted at 2. rewrite Htr, drop_app_length.
  assert (Hadd : forall prefix, py_str_add prefix v = Raise TypeError).
  { intros prefix. destruct v; try done. by destruct (Hv s). }
  destruct (rails_from_path "config" _) as [[[]|e'] s1]; simpl in Hrun.
  - rewrite Hsn in Hrun.
    destruct (similarity_search v s1) as [[docs|e'] s2]; simpl in Hrun.
    + rewrite Hadd in Hrun. inversion Hrun as [[Hr Ha]].
      eexists. unfold emitted. rewrite <- Ha. simpl.
      split; [|split; [right; right; eauto|done]].
      by rewrite Htr, <- !app_assoc, drop_app_length.
    + inversion Hrun as [[Hr Ha]].
      eexists. unfold emitted. rewrite <- Ha. simpl.
      split; [|split; [right; left; eauto|done]].
      by rewrite Htr, <- !app_assoc, drop_app_length.
  - inversion Hrun as [[Hr Ha]].
    eexists. unfold emitted. rewrite <- Ha. simpl.
    split; [|split; [left; eauto|done]].
    by rewrite Htr, <- !app_assoc, drop_app_length.
Qed.

End Cycle_extras.

(** X13, at an iteration of a draft and one revision. *)
Lemma annotations_are_stored_as_returned_witness :
  exists s a b docs r events row,
    emitted (hypothesis_cycle (Stub.generator 2 1) "") Stub.draft_and_revision
    = (EvGraphStream [HumanMessage (seed_text +:+ "")] :: events
       ++ [EvRailsConfig "config" (Ok tt);
           EvSimilaritySearch (JStr s) (Ok docs);
           EvGuardrails ("Does the following contain any restricted topics?: " +:+ a) (Ok b);
           EvLLMShort
             [SystemMessage "You are world class technical documentation writer.";
              HumanMessage (str_of_documents docs)] (Ok r)])%list
    /\ Forall graph_event events
    /\ hypothesisdf_all (after (hypothesis_cycle (Stub.generator 2 1) "") Stub.draft_and_revision)
       = (hypothesisdf_all Stub.draft_and_revision ++ [row])%list
    /\ assoc "Hypotheses short description" row = Some (JStr s)
    /\ assoc "Generated Hypotheses" row = Some (JStr a)
    /\ assoc "Biohazard" row = Some (JStr b)
    /\ assoc "Relations to literature" row = Some (JStr (ai_content r)).
Proof.
  apply (annotations_are_stored_as_returned
           (Stub.generator 2 1) "" Stub.draft_and_revision "B").
  vm_compute. reflexivity.
Defined.

(** X14, at an iteration whose revision carries no invocation. *)
Lemma iteration_stops_when_the_short_name_is_missing_witness :
  exists out,
    emitted (hypothesis_cycle (Stub.generator 2 1) "") Stub.bare_revision
    = (emitted (graph_stream (Stub.generator 2 1) [HumanMessage (seed_text +:+ "")] write_last)
         Stub.bare_revision
       ++ [EvRailsConfig "config" out])%list
    /\ result (hypothesis_cycle (Stub.generator 2 1) "") Stub.bare_revision
       = match out with Ok _ => Raise IndexError | Raise e' => Raise e' end
    /\ hypothesisdf_all (after (hypothesis_cycle (Stub.generator 2 1) "") Stub.bare_revision)
       = hypothesisdf_all Stub.bare_revision.
Proof.
  apply (iteration_stops_when_the_short_name_is_missing
           (Stub.generator 2 1) "" Stub.bare_revision
           [HumanMessage (seed_text +:+ ""); AIMessage (Stub.good "A");
            ToolMessage "about q1; about q2" "call_1"; AIMessage Stub.bare]);
    vm_compute; reflexivity.
Defined.

(** X15, at an iteration whose revision binds the short name to null. *)
Lemma iteration_stops_when_the_short_name_is_not_text_witness :
  exists tail,
    emitted (hypothesis_cycle (Stub.generator 2 1) "") Stub.unnamed_revision
    = (emitted (graph_stream (Stub.generator 2 1) [HumanMessage (seed_text +:+ "")] write_last)
         Stub.unnamed_revision
       ++ tail)%list
    /\ ((exists e, tail = [EvRailsConfig "config" (Raise e)]
                   /\ result (hypothesis_cycle (Stub.generator 2 1) "") Stub.unnamed_revision
                      = Raise e)
        \/ (exists e, tail = [EvRailsConfig "config" (Ok tt); EvSimilaritySearch JNull (Raise e)]
                      /\ result (hypothesis_cycle (Stub.generator 2 1) "") Stub.unnamed_revision
                         = Raise e)
        \/ (exists docs,
              tail = [EvRailsConfig "config" (Ok tt); EvSimilaritySearch JNull (Ok docs)]
              /\ result (hypothesis_cycle (Stub.generator 2 1) "") Stub.unnamed_revision
                 = Raise TypeError))
    /\ hypothesisdf_all (after (hypothesis_cycle (Stub.generator 2 1) "") Stub.unnamed_revision)
       = hypothesisdf_all Stub.unnamed_revision.
Proof.
  apply (iteration_stops_when_the_short_name_is_not_text
           (Stub.generator 2 1) "" Stub.unnamed_revision
           [HumanMessage (seed_text +:+ ""); AIMessage (Stub.good "A");
            ToolMessage "about q1; about q2" "call_1"; AIMessage Stub.unnamed] JNull);
    [vm_compute; reflexivity | vm_compute; reflexivity | discriminate].
Defined.

(** * The rows of the table *)

Section Rows.
Context {Ext : Type} `{Collaborators Ext}.
Local Open Scope list_scope.

(** The row of a completed run of the loop body. *)
Lemma completed_fields self acc (w w' : World Ext) res :
  cycle_completed self acc w w' res ->
  exists step w1 row,
    graph_stream self [HumanMessage (seed_text +:+ acc)] write_last w = (Ok step, w1)
    /\ is_ok (final_reflection step "shortname") = true
    /\ hypothesisdf_all w' = hypothesisdf_all w ++ [row]
    /\ map fst row = columns
    /\ length row = 10%nat
    /\ (fields_present step = true -> no_null row).
Proof.
  intros [step w1 s a v3 v4 v5 v6 v7 v8 docs b r row gevs
            Hgraph Hsn _ H3 H4 H5 H6 H7 H8 _ _ Hrow Htab _].
  apply completed_row in Hrow
    as (x3 & x4 & x5 & x6 & x7 & x8 & -> & F3 & F4 & F5 & F6 & F7 & F8).
  eexists step, w1, _. split; [done|]. split; [by rewrite Hsn|].
  split; [exact Htab|]. split; [done|]. split; [done|].
  intros Hfields. unfold fields_present in Hfields. simpl in Hfields.
  repeat (apply andb_prop in Hfields as [? Hfields]).
  unfold no_null. repeat constructor; simpl; try done.
  all: match goal with
       | F : frame_cell ?v = Ok ?x, Hv : final_reflection _ ?f = Ok ?v
         |- is_null ?x = false =>
           eapply (field_present_inv _ f v x); [eassumption | exact Hv | exact F]
       end.
Qed.

(** A final message whose first invocation binds the fields of the schema
    classes has its six critique fields present. *)
Lemma bound_fields_present (pre : list Message) (r : AIMsg) :
  forallb (fun tc => fields_bound (tc_args tc)) (tool_calls r) = true ->
  is_ok (final_reflection (pre ++ [AIMessage r]) "shortname") = true ->
  fields_present (pre ++ [AIMessage r]) = true.
Proof.
  intros Hall Hsn.
  assert (Hfinal : forall field,
    final_reflection (pre ++ [AIMessage r]) field
    = match tool_calls r with
      | [] => Raise IndexError
      | tc :: _ =>
          match py_getitem (tc_args tc) "reflection" with
          | Ok d => py_getitem d field
          | Raise e => Raise e
          end
      end).
  { intros field. unfold final_reflection. rewrite final_args_last.
    unfold final_args.
    pose proof (py_index_last [] (AIMessage r)) as Hidx. simpl app in Hidx. rewrite Hidx.
    by destruct (tool_calls r). }
  rewrite Hfinal in Hsn.
  destruct (tool_calls r) as [|tc tcs]; [discriminate|].
  apply forallb_cons_true in Hall as [Hb _]. unfold fields_bound in Hb.
  apply andb_prop in Hb as [_ Hb].
  destruct (py_getitem (tc_args tc) "reflection") as [d|]; [|discriminate].
  unfold Reflection_fields in Hb.
  repeat (apply forallb_cons_true in Hb as [? Hb]).
  unfold fields_present, field_present. simpl forallb. rewrite !Hfinal.
  unfold holds in *. by repeat (apply andb_true_intro; split).
Qed.

(** The last message of a run of the graph that returns is the response the
    revisor returned: one its validator accepts, or one it rejects (then
    for the third time). *)
Lemma graph_stream_last self input (w : World Ext) step w' :
  graph_stream self input write_last w = (Ok step, w') ->
  exists pre r,
    step = pre ++ [AIMessage r]
    /\ (v_invoke (revision_validator self) r = Ok tt
        \/ rejects (revision_validator self) r = true).
Proof.
  unfold graph_stream. intros Hrun. unfold bind at 1, emit in Hrun.
  bind_cases Hrun; [|discriminate].
  apply graph_steps_returns in Hk as (out & r & _ & _ & _ & -> & _ & _ & Hvalid).
  exists (input ++ out), r. by rewrite <- app_assoc.
Qed.

Section Cooperative.
Variable self : HypothesisGenerator.
Hypothesis Hcoop : cooperative self.
Hypothesis Hlimit :
  (2 * Z.to_nat (agent_iterations self) + 3 <= recursion_limit self)%nat.
Hypothesis Habiding : schema_abiding (revision_validator self).

Lemma cooperative_row acc (w : World Ext) acc' w' :
  hypothesis_cycle self acc w = (Ok acc', w') ->
  exists row, hypothesisdf_all w' = hypothesisdf_all w ++ [row] /\ no_null row.
Proof.
  intros Hrun.
  apply hypothesis_cycle_inv in Hrun as [Hdone|(e & ? & ? & _)]; [|discriminate].
  apply completed_fields in Hdone as (step & w1 & row & Hgraph & Hsn & Htab & _ & _ & Hnull).
  exists row. split; [done|]. apply Hnull.
  destruct (graph_stream_ok self Hcoop Hlimit acc w)
    as (step' & w1' & Hgraph' & _ & pre & r & Hstep & Hvalid & _).
  rewrite Hgraph in Hgraph'. inversion Hgraph'; subst step' w1' step.
  apply bound_fields_present; [|done]. by apply Habiding.
Qed.

Lemma cooperative_rows n :
  forall acc (w : World Ext) acc' w',
    hypothesis_cycles self n acc w = (Ok acc', w') ->
    exists rows, hypothesisdf_all w' = hypothesisdf_all w ++ rows /\ Forall no_null rows.
Proof.
  induction n as [|n IH]; intros acc w acc' w' Hrun; simpl in Hrun.
  - inversion Hrun; subst. exists []. by rewrite app_nil_r.
  - bind_cases Hrun; [|discriminate].
    apply cooperative_row in Hm as (row & Htab & Hrow).
    apply IH in Hk as (rows & Htab' & Hrows).
    exists (row :: rows). split; [by rewrite Htab', Htab, <- app_assoc|by constructor].
Qed.

Lemma cooperative_session (w : World Ext) t :
  result (generate_hypotheses self) w = Ok t -> Forall no_null t.
Proof.
  intros Hres.
  pose proof (run_eq (generate_hypotheses self) w) as Hrun. rewrite Hres in Hrun.
  apply generate_inv in Hrun
    as (w0 & evs0 & _ & _ & [(e & ? & _)|(Htab0 & res_loop & Hloop & Hres')]);
    [discriminate|].
  destruct res_loop as [acc'|e]; [|discriminate]. inversion Hres'; subst t.
  apply cooperative_rows in Hloop as (rows & -> & Hrows). by rewrite Htab0.
Qed.

End Cooperative.


End Rows.

(** The parsers of the program are validators over the schema classes. *)
Lemma binds_fields_bound (args : Json) :
  Stub.binds_AnswerQuestion args = true -> fields_bound args = true.
Proof.
  assert (Htext : forall d k, Stub.field_is_text d k = true -> holds d k = true).
  { intros d k. unfold Stub.field_is_text, holds.
    destruct (py_getitem d k) as [[]|]; simpl; congruence. }
  unfold Stub.binds_AnswerQuestion, fields_bound.
  intros [[Hanswer Hreflection]%andb_prop _]%andb_prop.
  apply andb_true_intro. split; [by apply Htext|].
  destruct (py_getitem args "reflection") as [d|]; [|done].
  unfold Stub.binds_Reflection in Hreflection. unfold Reflection_fields.
  repeat (apply forallb_cons_true in Hreflection as [? Hreflection]).
  simpl. by repeat (apply andb_true_intro; split; [by apply Htext|]).
Qed.

Lemma tools_parser_abiding (name : string) (binds : Json -> bool) :
  (forall args, binds args = true -> fields_bound args = true) ->
  schema_abiding (Stub.tools_parser name binds).
Proof.
  intros Hbinds r. simpl. induction (tool_calls r) as [|tc tcs IH]; simpl; [done|].
  destruct (String.eqb (tc_name tc) name); [|discriminate].
  destruct (binds (tc_args tc)) eqn:Htc; [|discriminate].
  intros Hrest. by rewrite (Hbinds _ Htc), IH.
Qed.

Lemma revision_parser_abiding :
  schema_abiding (revision_validator (Stub.program 2 2)).
Proof.
  apply tools_parser_abiding. intros args [Hargs _]%andb_prop.
  by apply binds_fields_bound.
Qed.

(** The faithful collaborators are cooperative for the program. *)
Lemma faithful_is_cooperative : @cooperative nat Stub.faithful (Stub.program 2 2).
Proof.
  split; [|repeat split; intros; simpl; eauto].
  intros c messages tags s. destruct c; eexists _, _.
  all: split; [reflexivity|]; repeat split; reflexivity.
Qed.


